(** * io-dump: a shallow embedding of [src/lib.rs] and its specification

    [Dump] decorates an I/O handle, logging every read and write to a sink
    in a line-oriented text format; [DumpRead] parses that format back into
    [Packet]s.  This file embeds the encoder ([Inner::write_packet],
    [Inner::write_data_line], [millis]), the decorator's [read] and [write],
    and the reader ([DumpRead::read_packet] and its [Iterator] impl).

    Modelling conventions:
    - text is [list ascii]; every byte the encoder emits is ASCII;
    - payload bytes are [Byte.byte] ([u8]);
    - [u64] / [u32] quantities are [Z] with their bounds written out;
    - a Rust panic ([assert_eq!], [unwrap], an out-of-range slice) is the
      [Panic] outcome, an [io::Error] returned by value is [Err_]. *)

From Stdlib Require Import ZArith Ascii String List Bool Lia QArith Qround.
Import ListNotations.

Open Scope nat_scope.
Open Scope char_scope.
Open Scope list_scope.

(** ** Data model *)

Inductive Direction := Read | Write.

Definition Direction_eqb (a b : Direction) : bool :=
  match a, b with
  | Read, Read | Write, Write => true
  | _, _ => false
  end.

(** [std::time::Duration]: whole seconds ([u64]) and a sub-second
    nanosecond part ([u32], below [10^9]). *)
Record Duration := mkDuration { as_secs : Z; subsec_nanos : Z }.

Definition duration_valid (d : Duration) : Prop :=
  (0 <= as_secs d < 2 ^ 64)%Z /\ (0 <= subsec_nanos d < 1000000000)%Z.

Definition U64_MAX : Z := (2 ^ 64 - 1)%Z.

(** Unsigned saturating arithmetic on [u64]. *)
Definition saturating_mul (a b : Z) : Z := Z.min (a * b)%Z U64_MAX.
Definition saturating_add (a b : Z) : Z := Z.min (a + b)%Z U64_MAX.

Definition NANOS_PER_MILLI : Z := 1000000%Z.
Definition MILLIS_PER_SEC : Z := 1000%Z.

(** [fn millis(duration: Duration) -> u64]; the [u32] addition is written
    with its wrap-around. *)
Definition millis (duration : Duration) : Z :=
  let millis :=
    (((subsec_nanos duration + NANOS_PER_MILLI - 1) mod 2 ^ 32)
      / NANOS_PER_MILLI)%Z in
  saturating_add (saturating_mul (as_secs duration) MILLIS_PER_SEC) millis.

(** [io::Error]: the reader's own errors carry a message; errors of the
    wrapped stream or of the sink are opaque codes. *)
Inductive IoError :=
| InvalidInput (msg : string)
| OtherError (code : nat).

(** Result of an operation: a value, an [io::Error] returned by value, or a
    panic. *)
Inductive outcome (A : Type) :=
| Ok_ (a : A)
| Err_ (e : IoError)
| Panic.
Arguments Ok_ {A} a.
Arguments Err_ {A} e.
Arguments Panic {A}.

(** [Packet { head: Head { direction, elapsed }, data }]. *)
Record Packet := mkPacket {
  direction : Direction;
  elapsed : Duration;
  data : list Byte.byte
}.

(** ** Text rendering *)

Definition s2l (s : string) : list ascii := list_ascii_of_string s.

Definition BACKSLASH : ascii := "092".
Definition NL : ascii := "010".
Definition CR : ascii := "013".

(** One upper-case hexadecimal digit ([{:X}]). *)
Definition hex_digit (n : N) : ascii :=
  if (n <? 10)%N then ascii_of_N (48 + n) else ascii_of_N (55 + n).

(** [{:02X}] of a [u8]. *)
Definition hex2 (b : Byte.byte) : list ascii :=
  [hex_digit (Byte.to_N b / 16); hex_digit (Byte.to_N b mod 16)].

Definition dec_digit (n : N) : ascii := ascii_of_N (48 + n).

Fixpoint digits_rev (fuel : nat) (n : N) : list ascii :=
  match fuel with
  | O => []
  | S f =>
      dec_digit (n mod 10)
        :: (if (n <? 10)%N then [] else digits_rev f (n / 10))
  end.

(** [Display] of an unsigned integer: decimal digits, no padding. *)
Definition show_N (n : N) : list ascii :=
  rev (digits_rev (S (N.size_nat n)) n).

(** [{:.3}] of [m as f64 / 1000.0] for a millisecond count [m]: the whole
    seconds, a dot, and three digits of the exact quotient.  For [m < 2^43]
    the [f64] quotient is within [2^-11] of [m / 1000] and prints exactly
    these digits; above about [8.8e15] ms (some 278,000 years) the code's
    rounded quotient can print other digits. *)
Definition fmt_secs3 (m : Z) : list ascii :=
  let m := Z.to_N m in
  show_N (m / 1000)
    ++ ["."; dec_digit ((m / 100) mod 10); dec_digit ((m / 10) mod 10);
        dec_digit (m mod 10)].

(** Rust's [Instant - Instant] (panics when the result is negative). *)
Definition instant_sub (t start : Duration) : option Duration :=
  let tn := (as_secs t * 1000000000 + subsec_nanos t)%Z in
  let sn := (as_secs start * 1000000000 + subsec_nanos start)%Z in
  if (tn <? sn)%Z then None
  else Some (mkDuration ((tn - sn) / 1000000000) ((tn - sn) mod 1000000000)).

(** ** A state-and-error monad over the sink *)

Definition M (S A : Type) : Type := S -> S * outcome A.

Definition ret {S A} (a : A) : M S A := fun s => (s, Ok_ a).

Definition panic {S A} : M S A := fun s => (s, Panic).

Definition bind {S A B} (m : M S A) (k : A -> M S B) : M S B :=
  fun s =>
    let (s', r) := m s in
    match r with
    | Ok_ a => k a s'
    | Err_ e => (s', Err_ e)
    | Panic => (s', Panic)
    end.

Notation "x <- m ;; k" := (bind m (fun x => k))
  (at level 61, m at next level, right associativity).
Notation "m ;;; k" := (bind m (fun _ => k))
  (at level 61, right associativity).

Fixpoint for_ {S X} (l : list X) (f : X -> M S unit) : M S unit :=
  match l with
  | [] => ret tt
  | x :: r => f x ;;; for_ r f
  end.

(** ** The encoder: [impl<U: Write> Inner<U>] *)

Definition LINE : nat := 25.

Section Encoder.

Variable Sink : Type.

(** [write!(self.dump, ...)]: [Write::write_fmt], which writes the whole
    formatted text or returns the sink's error. *)
Variable sink_write_fmt : Sink -> list ascii -> Sink * option IoError.

(** [self.dump.write(..)]: a single [Write::write] call, which returns the
    number of bytes the sink accepted or an error. *)
Variable sink_write : Sink -> list ascii -> Sink * (nat + IoError).

Definition write_fmt (t : list ascii) : M Sink unit :=
  fun s =>
    let (s', r) := sink_write_fmt s t in
    (s', match r with None => Ok_ tt | Some e => Err_ e end).

Definition write_raw (t : list ascii) : M Sink nat :=
  fun s =>
    let (s', r) := sink_write s t in
    (s', match r with inl n => Ok_ n | inr e => Err_ e end).

(** [fn write_data_line(&mut self, line: &[u8])] *)
Definition write_data_line (line : list Byte.byte) : M Sink unit :=
  for_ (seq 0 LINE) (fun i =>
    if (length line <=? i)%nat then write_fmt (s2l "   ")
    else write_fmt (hex2 (nth i line Byte.x00) ++ [" "])) ;;;
  write_fmt (s2l "    ") ;;;
  for_ line (fun byte =>
    let n := Byte.to_N byte in
    if (n =? 0)%N then write_fmt [BACKSLASH; "0"]
    else if (n =? 9)%N then write_fmt [BACKSLASH; "t"]
    else if (n =? 10)%N then write_fmt [BACKSLASH; "n"]
    else if (n =? 13)%N then write_fmt [BACKSLASH; "r"]
    else if ((32 <=? n)%N && (n <=? 126)%N)%bool then
      (_ <- write_raw [" "; ascii_of_byte byte] ;; ret tt)
    else write_fmt [BACKSLASH; "?"]) ;;;
  write_fmt [NL].

(** The [while pos < data.len()] loop of [write_packet]; [fuel] bounds the
    number of iterations (each one advances [pos]). *)
Fixpoint data_rows (fuel pos : nat) (data : list Byte.byte) : M Sink unit :=
  match fuel with
  | O => ret tt
  | S f =>
      if (pos <? length data)%nat then
        let end_ := Nat.min (pos + LINE) (length data) in
        write_data_line (firstn (end_ - pos) (skipn pos data)) ;;;
        data_rows f end_ data
      else ret tt
  end.

(** [fn write_packet(&mut self, dir: Direction, data: &[u8])]; [now] is the
    session's start instant and [clock] the value of [Instant::now()]. *)
Definition write_packet (now clock : Duration) (dir : Direction)
    (data : list Byte.byte) : M Sink unit :=
  (if Direction_eqb dir Write then write_fmt (s2l "<-  ")
   else write_fmt (s2l "->  ")) ;;;
  match instant_sub clock now with
  | None => panic
  | Some d =>
      let elapsed := millis d in
      write_fmt (fmt_secs3 elapsed ++ s2l "s  "
                 ++ show_N (N.of_nat (length data)) ++ s2l " bytes") ;;;
      write_fmt [NL] ;;;
      data_rows (length data) 0 data ;;;
      write_fmt [NL]
  end.

End Encoder.

(** ** The decorator: [Read for Dump] and [Write for Dump] *)

Section Decorator.

Variables (Sink Up : Type).
Variable sink_write_fmt : Sink -> list ascii -> Sink * option IoError.
Variable sink_write : Sink -> list ascii -> Sink * (nat + IoError).

(** [self.upstream.read(dst)]: the new contents of [dst] and the count read,
    or an error. *)
Variable upstream_read :
  Up -> list Byte.byte -> Up * list Byte.byte * (nat + IoError).

(** [self.upstream.write(src)]: the count written, or an error. *)
Variable upstream_write : Up -> list Byte.byte -> Up * (nat + IoError).

(** [struct Inner<U> { dump: U, now: Instant }] *)
Record Inner := mkInner { dump : Sink; now : Duration }.

(** [struct Dump<T, U> { upstream: T, inner: Option<Inner<U>> }] *)
Record Dump := mkDump { upstream : Up; inner : option Inner }.

Definition inner_write_packet (i : Inner) (clock : Duration) (dir : Direction)
    (data : list Byte.byte) : Inner * outcome unit :=
  let (s', r) :=
    write_packet Sink sink_write_fmt sink_write (now i) clock dir data (dump i) in
  (mkInner s' (now i), r).

(** [fn read(&mut self, dst: &mut [u8]) -> io::Result<usize>]; returns the
    new decorator, the new contents of [dst] and the result. *)
Definition dump_read (d : Dump) (clock : Duration) (dst : list Byte.byte)
    : Dump * list Byte.byte * outcome nat :=
  let '(up', dst', r) := upstream_read (upstream d) dst in
  match r with
  | inr e => (mkDump up' (inner d), dst', Err_ e)
  | inl n =>
      match inner d with
      | None => (mkDump up' None, dst', Ok_ n)
      | Some i =>
          if (length dst <? n)%nat then (mkDump up' (Some i), dst', Panic)
          else
            let (i', r') := inner_write_packet i clock Read (firstn n dst') in
            (mkDump up' (Some i'), dst',
             match r' with
             | Ok_ _ => Ok_ n
             | Err_ e => Err_ e
             | Panic => Panic
             end)
      end
  end.

(** [fn write(&mut self, src: &[u8]) -> io::Result<usize>] *)
Definition dump_write (d : Dump) (clock : Duration) (src : list Byte.byte)
    : Dump * outcome nat :=
  let '(up', r) := upstream_write (upstream d) src in
  match r with
  | inr e => (mkDump up' (inner d), Err_ e)
  | inl n =>
      match inner d with
      | None => (mkDump up' None, Ok_ n)
      | Some i =>
          if (length src <? n)%nat then (mkDump up' (Some i), Panic)
          else
            let (i', r') := inner_write_packet i clock Write (firstn n src) in
            (mkDump up' (Some i'),
             match r' with
             | Ok_ _ => Ok_ n
             | Err_ e => Err_ e
             | Panic => Panic
             end)
      end
  end.

End Decorator.

Arguments mkInner {Sink} dump now.
Arguments dump {Sink} i.
Arguments now {Sink} i.
Arguments mkDump {Sink Up} upstream inner.
Arguments upstream {Sink Up} d.
Arguments inner {Sink Up} d.

(** An in-memory sink such as [Vec<u8>]: every write appends all of its
    bytes and succeeds. *)
Definition buf_write_fmt (s : list ascii) (t : list ascii)
    : list ascii * option IoError := (s ++ t, None).

Definition buf_write (s : list ascii) (t : list ascii)
    : list ascii * (nat + IoError) := (s ++ t, inl (length t)).

(** ** The reader: [impl<T: Read> DumpRead<T>] *)

Definition ascii_eqb (a b : ascii) : bool :=
  if ascii_dec a b then true else false.

Definition str_eqb (a b : list ascii) : bool :=
  if list_eq_dec ascii_dec a b then true else false.

(** [BufRead::lines]: split at ['\n']; a ['\r'] just before a ['\n'] is
    removed with it; a final piece with no ['\n'] after it is produced only
    when non-empty, and kept as it is. *)
Definition strip_cr (l : list ascii) : list ascii :=
  match rev l with
  | c :: r => if ascii_eqb c CR then rev r else l
  | [] => l
  end.

Fixpoint lines_aux (cur : list ascii) (s : list ascii) : list (list ascii) :=
  match s with
  | [] => match cur with [] => [] | _ => [rev cur] end
  | c :: r =>
      if ascii_eqb c NL then strip_cr (rev cur) :: lines_aux [] r
      else lines_aux (c :: cur) r
  end.

Definition lines (s : list ascii) : list (list ascii) := lines_aux [] s.

(** [str::split(|v| v == c)]: the pieces between occurrences of [c]. *)
Fixpoint split_on (c : ascii) (s : list ascii) : list (list ascii) :=
  match s with
  | [] => [[]]
  | x :: r =>
      let ps := split_on c r in
      if ascii_eqb x c then [] :: ps
      else match ps with
           | p :: ps' => (x :: p) :: ps'
           | [] => [[x]]
           end
  end.

(** [head.split(|v| v == ' ').filter(|v| !v.is_empty())] *)
Definition tokens (l : list ascii) : list (list ascii) :=
  filter (fun t => negb (match t with [] => true | _ => false end))
    (split_on " " l).

(** *** [str::parse::<f64>] *)

(** An [f64] value, with finite values kept exactly: [parse_f64] accepts
    the strings Rust's [f64::from_str] accepts, but keeps the exact decimal
    value instead of the nearest [f64]. *)
Inductive F64 := Finite (q : Q) | Infinity (neg : bool) | NaN.

Definition is_digit (c : ascii) : bool :=
  let n := nat_of_ascii c in ((48 <=? n) && (n <=? 57))%nat.

Fixpoint span_digits (s : list ascii) : list ascii * list ascii :=
  match s with
  | c :: r =>
      if is_digit c then let (d, t) := span_digits r in (c :: d, t)
      else ([], s)
  | [] => ([], [])
  end.

Definition digits_value (ds : list ascii) : Z :=
  fold_left (fun acc c => acc * 10 + (Z.of_nat (nat_of_ascii c) - 48))%Z ds 0%Z.

Definition lower (c : ascii) : ascii :=
  let n := nat_of_ascii c in
  if ((65 <=? n) && (n <=? 90))%nat then ascii_of_nat (n + 32) else c.

Definition pow10Q (k : Z) : Q :=
  if (0 <=? k)%Z then inject_Z (10 ^ k) else 1 # Z.to_pos (10 ^ (- k)).

(** The optional exponent [('e' | 'E') [+-]? digit+] and end of input. *)
Definition parse_exp (s : list ascii) : option Z :=
  match s with
  | [] => Some 0%Z
  | e :: r =>
      if ascii_eqb (lower e) "e" then
        let '(neg, r') :=
          match r with
          | c :: t => if ascii_eqb c "+" then (false, t)
                      else if ascii_eqb c "-" then (true, t)
                      else (false, r)
          | [] => (false, r)
          end in
        let (ds, rest) := span_digits r' in
        match ds, rest with
        | _ :: _, [] =>
            Some (if neg then (- digits_value ds)%Z else digits_value ds)
        | _, _ => None
        end
      else None
  end.

(** [digit+ | digit+ '.' digit* | digit* '.' digit+], then an exponent. *)
Definition parse_number (s : list ascii) : option Q :=
  let (d1, r1) := span_digits s in
  match r1 with
  | c :: r2 =>
      if ascii_eqb c "." then
        let (d2, r3) := span_digits r2 in
        match d1, d2 with
        | [], [] => None
        | _, _ =>
            match parse_exp r3 with
            | Some e =>
                Some (inject_Z (digits_value (d1 ++ d2))
                      * pow10Q (e - Z.of_nat (length d2)))%Q
            | None => None
            end
        end
      else
        match d1 with
        | [] => None
        | _ => match parse_exp r1 with
               | Some e => Some (inject_Z (digits_value d1) * pow10Q e)%Q
               | None => None
               end
        end
  | [] =>
      match d1 with
      | [] => None
      | _ => Some (inject_Z (digits_value d1))
      end
  end.

Definition parse_f64 (s : list ascii) : option F64 :=
  let '(neg, s1) :=
    match s with
    | c :: t => if ascii_eqb c "+" then (false, t)
                else if ascii_eqb c "-" then (true, t)
                else (false, s)
    | [] => (false, s)
    end in
  let low := map lower s1 in
  if str_eqb low (s2l "inf") || str_eqb low (s2l "infinity") then
    Some (Infinity neg)
  else if str_eqb low (s2l "nan") then Some NaN
  else match parse_number s1 with
       | Some q => Some (Finite (if neg then Qopp q else q))
       | None => None
       end.

(** [(elapsed * 1000.0) as u64]: a saturating cast, [NaN] to [0].  The
    product is taken exactly, not rounded as [f64]: for [1.001] the code
    gets [1000.9999999999999] and [1000] ms, this model [1001]; no theorem
    here depends on the recovered value. *)
Definition f64_millis_to_u64 (x : F64) : Z :=
  match x with
  | Finite q => Z.max 0 (Z.min (Qfloor (q * 1000)%Q) U64_MAX)
  | Infinity false => U64_MAX
  | Infinity true => 0%Z
  | NaN => 0%Z
  end.

Definition from_millis (ms : Z) : Duration :=
  mkDuration (ms / 1000) ((ms mod 1000) * 1000000).

(** *** [read_packet] *)

Definition hex_value (c : ascii) : option N :=
  let n := N_of_ascii c in
  if ((48 <=? n) && (n <=? 57))%N then Some (n - 48)%N
  else if ((65 <=? n) && (n <=? 70))%N then Some (n - 55)%N
  else if ((97 <=? n) && (n <=? 102))%N then Some (n - 87)%N
  else None.

(** [u8::from_str_radix(c, 16)] on a two-character [c]: an optional leading
    ['+'] and hexadecimal digits of either case. *)
Definition from_str_radix16 (a b : ascii) : option Byte.byte :=
  if ascii_eqb a "+" then
    match hex_value b with Some y => Byte.of_N y | None => None end
  else
    match hex_value a, hex_value b with
    | Some x, Some y => Byte.of_N (x * 16 + y)
    | _, _ => None
    end.

(** The inner [loop] over [line[pos..pos+2]], [pos = 0, 3, 6, ...]: the
    argument is [line[pos..]].  A slice past the end of the line panics. *)
Fixpoint scan_hex (line : list ascii) : outcome (list Byte.byte) :=
  match line with
  | a :: b :: r =>
      if ascii_eqb a " " && ascii_eqb b " " then Ok_ []
      else
        match from_str_radix16 a b with
        | None => Err_ (InvalidInput "could not parse byte")
        | Some byte =>
            match r with
            | [] => Panic
            | _ :: r' =>
                match scan_hex r' with
                | Ok_ bs => Ok_ (byte :: bs)
                | Err_ e => Err_ e
                | Panic => Panic
                end
            end
        end
  | _ => Panic
  end.

(** The body [loop]: lines up to a blank one (end of input counts as a
    blank line). *)
Fixpoint read_body (dir : Direction) (el : Duration) (data : list Byte.byte)
    (ls : list (list ascii)) : outcome (option Packet) * list (list ascii) :=
  match ls with
  | [] => (Ok_ (Some (mkPacket dir el data)), [])
  | line :: rest =>
      match line with
      | [] => (Ok_ (Some (mkPacket dir el data)), rest)
      | _ =>
          match scan_hex line with
          | Ok_ bs => read_body dir el (data ++ bs) rest
          | Err_ e => (Err_ e, rest)
          | Panic => (Panic, rest)
          end
      end
  end.

Definition dir_of (t : list ascii) : option Direction :=
  if str_eqb t (s2l "<-") then Some Write
  else if str_eqb t (s2l "->") then Some Read
  else None.

(** [fn read_packet(&mut self) -> io::Result<Option<Packet>>] over the
    remaining lines; returns the outcome and the lines left. *)
Fixpoint read_packet (ls : list (list ascii))
    : outcome (option Packet) * list (list ascii) :=
  match ls with
  | [] => (Ok_ None, [])
  | l :: rest =>
      let head := tokens l in
      if match head with [] => true | _ => false end
         || str_eqb (nth 0 head []) (s2l "//")
      then read_packet rest
      else if negb (length head =? 4)%nat then (Panic, rest)
      else
        match dir_of (nth 0 head []) with
        | None => (Err_ (InvalidInput "invalid direction format"), rest)
        | Some dir =>
            let s := nth 1 head [] in
            match parse_f64 (firstn (length s - 1) s) with
            | None => (Panic, rest)
            | Some el =>
                read_body dir (from_millis (f64_millis_to_u64 el)) [] rest
            end
        end
  end.

(** [Iterator::next]: [self.read_packet().unwrap()]. *)
Definition next (ls : list (list ascii))
    : outcome (option Packet) * list (list ascii) :=
  let (r, rest) := read_packet ls in
  (match r with Ok_ o => Ok_ o | Err_ _ => Panic | Panic => Panic end, rest).

(** Draining the iterator: the packets produced and how iteration ended
    ([Ok_ tt] when [next] returned [None]); [None] if [fuel] runs out. *)
Fixpoint collect (fuel : nat) (ls : list (list ascii))
    : option (list Packet * outcome unit) :=
  match fuel with
  | O => None
  | S f =>
      match next ls with
      | (Ok_ None, _) => Some ([], Ok_ tt)
      | (Ok_ (Some p), rest) =>
          match collect f rest with
          | Some (ps, r) => Some (p :: ps, r)
          | None => None
          end
      | (Err_ e, _) => Some ([], Err_ e)
      | (Panic, _) => Some ([], Panic)
      end
  end.

Definition read_dump (text : list ascii) : option (list Packet * outcome unit) :=
  let ls := lines text in collect (S (length ls)) ls.

(** ** Capturing a sequence of calls into an in-memory sink *)

(** One transfer seen by a capturing decorator: its direction, the bytes
    transferred ([dst[0..n]] or [src[0..n]]) and the clock at the call. *)
Record Op := mkOp { op_dir : Direction; op_data : list Byte.byte;
                    op_clock : Duration }.

Fixpoint capture (start : Duration) (log : list ascii) (ops : list Op)
    : list ascii * outcome unit :=
  match ops with
  | [] => (log, Ok_ tt)
  | o :: rest =>
      match write_packet (list ascii) buf_write_fmt buf_write start
              (op_clock o) (op_dir o) (op_data o) log with
      | (log', Ok_ _) => capture start log' rest
      | (log', Err_ e) => (log', Err_ e)
      | (log', Panic) => (log', Panic)
      end
  end.

(** ** The text the encoder produces, piece by piece *)

(** [emits m t]: on the in-memory sink, [m] appends [t] and succeeds. *)
Definition emits (m : M (list ascii) unit) (t : list ascii) : Prop :=
  forall log, m log = (log ++ t, Ok_ tt).

(** What one arm of the ASCII-column [match] writes for [byte]. *)
Definition ascii_entry (byte : Byte.byte) : list ascii :=
  let n := Byte.to_N byte in
  if (n =? 0)%N then [BACKSLASH; "0"]
  else if (n =? 9)%N then [BACKSLASH; "t"]
  else if (n =? 10)%N then [BACKSLASH; "n"]
  else if (n =? 13)%N then [BACKSLASH; "r"]
  else if ((32 <=? n)%N && (n <=? 126)%N)%bool then [" "; ascii_of_byte byte]
  else [BACKSLASH; "?"].

(** Slot [i] of the hex column of a data row. *)
Definition hex_cell (line : list Byte.byte) (i : nat) : list ascii :=
  if (length line <=? i)%nat then s2l "   "
  else hex2 (nth i line Byte.x00) ++ [" "].

Definition hex_col (line : list Byte.byte) : list ascii :=
  concat (map (hex_cell line) (seq 0 LINE)).

(** A data row without its newline. *)
Definition row_line (line : list Byte.byte) : list ascii :=
  hex_col line ++ s2l "    " ++ concat (map ascii_entry line).

(** The rows [data[pos..end]] of the [while] loop, from [pos = 0]. *)
Fixpoint rows_of (fuel : nat) (l : list Byte.byte) : list (list Byte.byte) :=
  match fuel with
  | O => []
  | S f =>
      match l with
      | [] => []
      | _ :: _ => firstn LINE l :: rows_of f (skipn LINE l)
      end
  end.

Definition dir_text (dir : Direction) : list ascii :=
  if Direction_eqb dir Write then s2l "<-  " else s2l "->  ".

Definition header_line (dir : Direction) (ms : Z) (n : nat) : list ascii :=
  dir_text dir ++ fmt_secs3 ms ++ s2l "s  " ++ show_N (N.of_nat n)
    ++ s2l " bytes".

(** The lines of one record, as [BufRead::lines] returns them. *)
Definition record_lines (dir : Direction) (ms : Z) (data : list Byte.byte)
    : list (list ascii) :=
  header_line dir ms (length data)
    :: map row_line (rows_of (length data) data) ++ [[]].

Definition unlines (ls : list (list ascii)) : list ascii :=
  concat (map (fun l => l ++ [NL]) ls).

(** The ASCII-column mapping in the words of the specification: [\0],
    [\t], [\n], [\r] for the bytes 0, 9, 10 and 13, a space followed by the
    character itself for 32..126, and [\?] for every other byte. *)
Definition ascii_column_spec (b : Byte.byte) : list ascii :=
  match Byte.to_nat b with
  | 0 => s2l "\0"
  | 9 => s2l "\t"
  | 10 => s2l "\n"
  | 13 => s2l "\r"
  | n => if ((32 <=? n) && (n <=? 126))%nat then [" "; ascii_of_nat n]
         else s2l "\?"
  end.

(** A line holds neither a newline nor a carriage return. *)
Definition clean_line (l : list ascii) : bool :=
  forallb (fun c => negb (ascii_eqb c NL) && negb (ascii_eqb c CR)) l.

Definition dir_token (dir : Direction) : list ascii :=
  if Direction_eqb dir Write then s2l "<-" else s2l "->".

(** The records of a capture: one per call, timed against [start]. *)
Definition op_record (start : Duration) (o : Op) : list (list ascii) :=
  match instant_sub (op_clock o) start with
  | Some d => record_lines (op_dir o) (millis d) (op_data o)
  | None => []
  end.

(** How the result of logging a packet becomes the result of a decorator
    call ([try!] on [write_packet], then [Ok(n)]). *)
Definition log_result (n : nat) (r : outcome unit) : outcome nat :=
  match r with
  | Ok_ _ => Ok_ n
  | Err_ e => Err_ e
  | Panic => Panic
  end.

(** A sink whose [Write::write] takes only the first byte of each call (a
    short write, which [Write::write] is allowed to do); its [write!] still
    writes everything. *)
Definition short_write (s t : list ascii) : list ascii * (nat + IoError) :=
  match t with
  | [] => (s, inl 0)
  | c :: _ => (s ++ [c], inl 1)
  end.

(** A data row as a person may write it by hand: each byte as two hex
    digits followed by any one character, then two blanks, then anything
    (usually the ASCII column). *)
Definition hand_row (cells : list (Byte.byte * ascii)) (junk : list ascii)
    : list ascii :=
  concat (map (fun c => hex2 (fst c) ++ [snd c]) cells) ++ " " :: " " :: junk.

(** What a computation over a text log appends when it succeeds. *)
Definition appends {A} (m : M (list ascii) A) (P : list ascii -> Prop) : Prop :=
  forall log log' a, m log = (log', Ok_ a) -> exists t, log' = log ++ t /\ P t.

(** An error one of the sink's writes returns. *)
Definition sink_error {Sink} (fmt : Sink -> list ascii -> Sink * option IoError)
    (wr : Sink -> list ascii -> Sink * (nat + IoError)) (e : IoError) : Prop :=
  (exists s t s', fmt s t = (s', Some e)) \/
  (exists s t s', wr s t = (s', inr e)).

(** A computation over the sink that, from any sink state, succeeds or
    fails with an error of the sink's, and never panics. *)
Definition sink_outcome {Sink A}
    (fmt : Sink -> list ascii -> Sink * option IoError)
    (wr : Sink -> list ascii -> Sink * (nat + IoError)) (m : M Sink A) : Prop :=
  forall s, match snd (m s) with
            | Ok_ _ => True
            | Err_ e => sink_error fmt wr e
            | Panic => False
            end.


(** A 7-bit character.  On lines of such characters [BufRead::lines]
    cannot fail (they are valid UTF-8) and every index is a character
    boundary, so no slice panics for that reason. *)
Definition ascii7 (c : ascii) : bool := (nat_of_ascii c <? 128)%nat.

(** A line [read_packet] passes over: blank, or a [//] comment. *)
Definition skipped_line (l : list ascii) : bool :=
  match tokens l with [] => true | _ => false end
  || str_eqb (nth 0 (tokens l) []) (s2l "//").

(** * Theorems *)

(** ** Running the encoder on an in-memory sink *)

Lemma emits_write_fmt t : emits (write_fmt (list ascii) buf_write_fmt t) t.
Proof. intros log. reflexivity. Qed.

Lemma emits_seq m1 m2 t1 t2 :
  emits m1 t1 -> emits m2 t2 -> emits (m1 ;;; m2) (t1 ++ t2).
Proof.
  intros H1 H2 log. unfold bind. rewrite H1, H2, app_assoc. reflexivity.
Qed.

Lemma emits_ret : emits (ret tt) [].
Proof. intros log. rewrite app_nil_r. reflexivity. Qed.

Lemma emits_for {X} (l : list X) f g :
  (forall x, In x l -> emits (f x) (g x)) ->
  emits (for_ l f) (concat (map g l)).
Proof.
  induction l as [|x l IH]; intros Hf; simpl.
  - apply emits_ret.
  - apply emits_seq; [apply Hf; left; reflexivity|].
    apply IH. intros y Hy. apply Hf. right. exact Hy.
Qed.

Lemma emits_ext m t t' : t = t' -> emits m t -> emits m t'.
Proof. intros ->. exact (fun H => H). Qed.

Create HintDb emits.
#[export] Hint Resolve emits_write_fmt emits_seq emits_ret : emits.

(** ** C2: [millis] rounds the sub-millisecond part up and saturates *)

(** C2.  For every (valid) duration [d], [millis d] is the whole seconds
    times 1000 plus the sub-second nanoseconds rounded up to whole
    milliseconds (a zero remainder giving zero), saturated at [u64::MAX]. *)
Theorem millis_ceil_saturating (d : Duration) (Hd : duration_valid d) :
  exists q,
    millis d = Z.min (as_secs d * 1000 + q) U64_MAX /\
    (q * 1000000 - 1000000 < subsec_nanos d <= q * 1000000)%Z /\
    (subsec_nanos d = 0 -> q = 0)%Z.
Proof.
  destruct d as [s n]; unfold duration_valid in Hd; simpl in *.
  exists ((n + 999999) / 1000000)%Z.
  unfold millis, saturating_add, saturating_mul, U64_MAX,
    NANOS_PER_MILLI, MILLIS_PER_SEC; simpl.
  rewrite (Z.mod_small (n + 1000000 - 1)) by lia.
  replace (n + 1000000 - 1)%Z with (n + 999999)%Z by lia.
  pose proof (Z.div_mod (n + 999999) 1000000 ltac:(lia)) as Hdm.
  pose proof (Z.mod_pos_bound (n + 999999) 1000000 ltac:(lia)) as Hb.
  set (q := ((n + 999999) / 1000000)%Z) in *.
  assert (Hq : (0 <= q)%Z) by (apply Z.div_pos; lia).
  repeat split; lia.
Qed.

Lemma millis_ceil_saturating_witness :
  duration_valid (mkDuration 2 1500001) /\
  exists q,
    millis (mkDuration 2 1500001) = Z.min (2 * 1000 + q) U64_MAX /\
    (q * 1000000 - 1000000 < 1500001 <= q * 1000000)%Z /\
    (1500001 = 0 -> q = 0)%Z.
Proof.
  assert (H : duration_valid (mkDuration 2 1500001))
    by (unfold duration_valid; simpl; lia).
  split; [exact H | apply (millis_ceil_saturating (mkDuration 2 1500001) H)].
Defined.

(** ** The encoder's output on an in-memory sink *)

Section BufferSink.


Lemma emits_ascii_arm byte :
  emits
    (let n := Byte.to_N byte in
     if (n =? 0)%N then write_fmt (list ascii) buf_write_fmt [BACKSLASH; "0"]
     else if (n =? 9)%N then write_fmt (list ascii) buf_write_fmt [BACKSLASH; "t"]
     else if (n =? 10)%N then write_fmt (list ascii) buf_write_fmt [BACKSLASH; "n"]
     else if (n =? 13)%N then write_fmt (list ascii) buf_write_fmt [BACKSLASH; "r"]
     else if ((32 <=? n)%N && (n <=? 126)%N)%bool then
       (_ <- write_raw (list ascii) buf_write [" "; ascii_of_byte byte] ;; ret tt)
     else write_fmt (list ascii) buf_write_fmt [BACKSLASH; "?"])
    (ascii_entry byte).
Proof.
  intros log. unfold ascii_entry. cbv zeta.
  destruct (Byte.to_N byte =? 0)%N; [reflexivity|].
  destruct (Byte.to_N byte =? 9)%N; [reflexivity|].
  destruct (Byte.to_N byte =? 10)%N; [reflexivity|].
  destruct (Byte.to_N byte =? 13)%N; [reflexivity|].
  destruct ((32 <=? Byte.to_N byte)%N && (Byte.to_N byte <=? 126)%N)%bool;
    reflexivity.
Qed.

Lemma write_data_line_emits line : emits (write_data_line (list ascii) buf_write_fmt buf_write line) (row_line line ++ [NL]).
Proof.
  unfold write_data_line, row_line, hex_col.
  rewrite <- !app_assoc.
  apply emits_seq.
  - apply emits_for. intros i _. unfold hex_cell.
    destruct (length line <=? i)%nat; apply emits_write_fmt.
  - apply emits_seq; [apply emits_write_fmt|].
    apply emits_seq; [|apply emits_write_fmt].
    apply emits_for. intros byte _. apply emits_ascii_arm.
Qed.

Lemma firstn_min_length {A} n (l : list A) :
  firstn (Nat.min n (length l)) l = firstn n l.
Proof.
  revert l. induction n as [|n IH]; intros [|x l]; simpl; try reflexivity.
  rewrite IH. reflexivity.
Qed.

Lemma data_rows_emits fuel pos data :
  emits (data_rows (list ascii) buf_write_fmt buf_write fuel pos data)
    (concat (map (fun r => row_line r ++ [NL]) (rows_of fuel (skipn pos data)))).
Proof.
  revert pos.
  induction fuel as [|f IH]; intros pos; cbn [data_rows rows_of].
  - apply emits_ret.
  - destruct (pos <? length data)%nat eqn:Hlt.
    + apply Nat.ltb_lt in Hlt.
      destruct (skipn pos data) as [|x t] eqn:Hs.
      { apply (f_equal (@length _)) in Hs. rewrite length_skipn in Hs.
        simpl in Hs. lia. }
      cbn [map concat]. apply emits_seq.
      * replace (Nat.min (pos + LINE) (length data) - pos)%nat
          with (Nat.min LINE (length (x :: t))) by
          (rewrite <- Hs, length_skipn; lia).
        rewrite firstn_min_length. apply write_data_line_emits.
      * rewrite <- Hs, skipn_skipn.
        destruct (Nat.le_gt_cases (length data) (pos + LINE)) as [Hle|Hgt].
        -- replace (Nat.min (pos + LINE) (length data)) with (length data)
             by lia.
           rewrite (skipn_all2 (n := (LINE + pos)%nat)) by lia.
           specialize (IH (length data)).
           rewrite (skipn_all2 (n := length data)) in IH by lia. exact IH.
        -- replace (Nat.min (pos + LINE) (length data)) with (LINE + pos)%nat
             by lia. apply IH.
    + apply Nat.ltb_ge in Hlt. rewrite skipn_all2 by exact Hlt.
      destruct f; apply emits_ret.
Qed.

Lemma write_packet_emits now clock d dir data :
  instant_sub clock now = Some d ->
  emits (write_packet (list ascii) buf_write_fmt buf_write now clock dir data)
    (unlines (record_lines dir (millis d) data)).
Proof.
  intros Hd.
  apply (emits_ext _
    (dir_text dir ++
     ((fmt_secs3 (millis d) ++ s2l "s  " ++ show_N (N.of_nat (length data))
         ++ s2l " bytes") ++
      ([NL] ++
       (concat (map (fun r => row_line r ++ [NL])
                  (rows_of (length data) (skipn 0 data))) ++ [NL]))))).
  { unfold record_lines, unlines, header_line.
    cbn [map concat skipn]. rewrite map_app, concat_app, map_map.
    cbn [map concat]. rewrite !app_nil_r, <- !app_assoc. reflexivity. }
  unfold write_packet. rewrite Hd.
  apply emits_seq.
  { unfold dir_text. destruct (Direction_eqb dir Write); apply emits_write_fmt. }
  apply emits_seq; [apply emits_write_fmt|].
  apply emits_seq; [apply emits_write_fmt|].
  apply emits_seq; [apply data_rows_emits|apply emits_write_fmt].
Qed.

End BufferSink.

(** ** Rows and columns *)

Lemma rows_of_concat fuel l :
  (length l <= fuel)%nat -> concat (rows_of fuel l) = l.
Proof.
  revert l. induction fuel as [|f IH]; intros l Hl.
  - destruct l; [reflexivity|simpl in Hl; lia].
  - destruct l as [|x t]; [reflexivity|].
    cbn [rows_of concat]. rewrite IH.
    + apply firstn_skipn.
    + rewrite length_skipn. simpl in *. unfold LINE. lia.
Qed.

Lemma rows_of_bounds fuel l :
  Forall (fun r => 1 <= length r <= LINE)%nat (rows_of fuel l).
Proof.
  revert l. induction fuel as [|f IH]; intros l; [constructor|].
  destruct l as [|x t]; [constructor|].
  cbn [rows_of]. constructor; [|apply IH].
  rewrite length_firstn. cbn [length]. unfold LINE. lia.
Qed.

Lemma rows_of_full fuel l i :
  (S i < length (rows_of fuel l))%nat ->
  length (nth i (rows_of fuel l) []) = LINE.
Proof.
  revert l i. induction fuel as [|f IH]; intros l i Hi; [simpl in Hi; lia|].
  destruct l as [|x t]; [simpl in Hi; lia|].
  cbn [rows_of length nth] in *. destruct i as [|i].
  - destruct (skipn LINE (x :: t)) as [|y u] eqn:Hs.
    + destruct f; simpl in Hi; lia.
    + rewrite length_firstn.
      assert (Hlen : (length (skipn LINE (x :: t)) > 0)%nat)
        by (rewrite Hs; simpl; lia).
      rewrite length_skipn in Hlen. lia.
  - apply IH. lia.
Qed.

Lemma map_hex_cell_shift b line n :
  map (hex_cell (b :: line)) (seq 1 n) = map (hex_cell line) (seq 0 n).
Proof.
  rewrite <- seq_shift, map_map. apply map_ext. intros i.
  reflexivity.
Qed.

Lemma hex_cells_padded line n :
  (length line <= n)%nat ->
  concat (map (hex_cell line) (seq 0 n)) =
  concat (map (fun b => hex2 b ++ [" "]) line)
    ++ concat (repeat (s2l "   ") (n - length line)).
Proof.
  revert n. induction line as [|b line IH]; intros n Hn.
  - simpl. rewrite Nat.sub_0_r.
    rewrite (map_ext _ (fun _ => s2l "   ")) by reflexivity.
    rewrite map_const, length_seq. reflexivity.
  - destruct n as [|n]; [simpl in Hn; lia|].
    cbn [seq map concat]. rewrite map_hex_cell_shift, IH by (simpl in Hn; lia).
    unfold hex_cell at 1. simpl. reflexivity.
Qed.

Lemma ascii_entry_spec b : ascii_entry b = ascii_column_spec b.
Proof. destruct b; reflexivity. Qed.

(** ** C6: rows of 25 bytes *)

(** C6.  On an in-memory sink, [write_packet] writes the header, then one
    data row per chunk of [rows_of], then a blank line.  The chunks
    concatenate to the payload, each holds 1 to 25 bytes, all but the last
    hold exactly 25.  A 25-byte payload gives a single row whose hex column
    has no blank slot; a 26-byte payload gives two rows, the second one's
    hex column being one byte followed by 24 blank three-character slots. *)
Theorem write_packet_rows (now clock d : Duration) (dir : Direction)
    (data : list Byte.byte) (Hclk : instant_sub clock now = Some d) :
  let rows := rows_of (length data) data in
  emits (write_packet (list ascii) buf_write_fmt buf_write now clock dir data)
    (header_line dir (millis d) (length data) ++ [NL]
       ++ concat (map (fun r => row_line r ++ [NL]) rows) ++ [NL]) /\
  concat rows = data /\
  Forall (fun r => 1 <= length r <= 25)%nat rows /\
  (forall i, S i < length rows -> length (nth i rows []) = 25)%nat /\
  (length data = 25%nat ->
     rows = [data] /\
     hex_col data = concat (map (fun b => hex2 b ++ [" "]) data)) /\
  (length data = 26%nat ->
     rows = [firstn 25 data; skipn 25 data] /\
     hex_col (skipn 25 data) =
       hex2 (nth 25 data Byte.x00) ++ [" "] ++ concat (repeat (s2l "   ") 24)).
Proof.
  intros rows. split; [|split; [|split; [|split; [|split]]]].
  - apply (emits_ext _ (unlines (record_lines dir (millis d) data))).
    + unfold unlines, record_lines. cbn [map concat].
      rewrite map_app, concat_app, map_map. cbn [map concat].
      rewrite <- !app_assoc. reflexivity.
    + apply write_packet_emits. exact Hclk.
  - apply rows_of_concat. lia.
  - apply rows_of_bounds.
  - intros i Hi. apply rows_of_full. exact Hi.
  - intros H25. unfold rows. rewrite H25.
    destruct data as [|b t]; [discriminate|].
    assert (Hr : rows_of 25 (b :: t) = [b :: t]).
    { cbn [rows_of]. rewrite firstn_all2 by (rewrite H25; unfold LINE; lia).
      rewrite skipn_all2 by (rewrite H25; unfold LINE; lia).
      reflexivity. }
    split; [exact Hr|].
    unfold hex_col. rewrite hex_cells_padded by (rewrite H25; unfold LINE; lia).
    rewrite H25, Nat.sub_diag. apply app_nil_r.
  - intros H26. unfold rows. rewrite H26.
    destruct data as [|b t]; [discriminate|].
    assert (Hs : length (skipn 25 (b :: t)) = 1%nat)
      by (rewrite length_skipn, H26; reflexivity).
    split.
    + cbn [rows_of]. unfold LINE.
      destruct (skipn 25 (b :: t)) as [|y [|z u]] eqn:E;
        simpl in Hs; try lia.
      reflexivity.
    + unfold hex_col. rewrite hex_cells_padded by (rewrite Hs; unfold LINE; lia).
      rewrite Hs.
      destruct (skipn 25 (b :: t)) as [|y [|z u]] eqn:E;
        simpl in Hs; try lia.
      assert (Hn : nth 25 (b :: t) Byte.x00 = y).
      { rewrite <- (firstn_skipn 25 (b :: t)), E, app_nth2;
          rewrite length_firstn, H26; [reflexivity|lia]. }
      rewrite Hn. simpl. reflexivity.
Qed.

Lemma write_packet_rows_witness :
  instant_sub (mkDuration 0 5) (mkDuration 0 0) = Some (mkDuration 0 5) /\
  (let rows := rows_of 0 [] in
   emits (write_packet (list ascii) buf_write_fmt buf_write
            (mkDuration 0 0) (mkDuration 0 5) Read [])
     (header_line Read (millis (mkDuration 0 5)) 0 ++ [NL]
        ++ concat (map (fun r => row_line r ++ [NL]) rows) ++ [NL]) /\
   concat rows = [] /\
   Forall (fun r => 1 <= length r <= 25)%nat rows /\
   (forall i, S i < length rows -> length (nth i rows []) = 25)%nat /\
   (length (@nil Byte.byte) = 25%nat ->
      rows = [[]] /\ hex_col [] = concat (map (fun b => hex2 b ++ [" "]) [])) /\
   (length (@nil Byte.byte) = 26%nat ->
      rows = [firstn 25 []; skipn 25 []] /\
      hex_col (skipn 25 []) =
        hex2 (nth 25 [] Byte.x00) ++ [" "] ++ concat (repeat (s2l "   ") 24))).
Proof.
  assert (H : instant_sub (mkDuration 0 5) (mkDuration 0 0)
              = Some (mkDuration 0 5)) by reflexivity.
  split; [exact H|].
  exact (write_packet_rows (mkDuration 0 0) (mkDuration 0 5) (mkDuration 0 5)
           Read [] H).
Defined.

(** ** C7: the ASCII column *)

(** C7.  On a log sink whose [write] takes the whole two-byte buffer,
    [write_data_line] writes the hex column, four spaces, and then for each
    byte, with no separator, exactly the two characters the specification's
    mapping gives ([\0], [\t], [\n], [\r], a space and the character for
    32..126, [\?] otherwise).  But the printable arm writes with
    [self.dump.write] and drops the count it returns: on a sink that takes
    one byte per [write] call (which [Write::write] allows) the byte [A]
    leaves a single blank in the ASCII column, not the two characters
    [" A"] the mapping gives. *)
Theorem ascii_column_rendering :
  (forall line,
     emits (write_data_line (list ascii) buf_write_fmt buf_write line)
       (hex_col line ++ s2l "    " ++ concat (map ascii_column_spec line)
          ++ [NL])) /\
  (forall b, length (ascii_column_spec b) = 2%nat) /\
  emits (write_data_line (list ascii) buf_write_fmt short_write [Byte.x41])
    (hex_col [Byte.x41] ++ s2l "    " ++ [" "] ++ [NL]) /\
  ascii_column_spec Byte.x41 = [" "; "A"].
Proof.
  split; [|split; [|split]].
  - intros line.
    apply (emits_ext _ (row_line line ++ [NL])).
    + unfold row_line. rewrite (map_ext _ _ ascii_entry_spec).
      rewrite <- !app_assoc. reflexivity.
    + apply write_data_line_emits.
  - intros b. destruct b; reflexivity.
  - unfold write_data_line, hex_col.
    apply emits_seq.
    + apply emits_for. intros i _. unfold hex_cell.
      destruct (length [Byte.x41] <=? i)%nat; apply emits_write_fmt.
    + apply emits_seq; [apply emits_write_fmt|].
      apply emits_seq; [|apply emits_write_fmt].
      intros log. reflexivity.
  - reflexivity.
Qed.

(** ** Decoding the rows the encoder writes *)

Lemma hex2_roundtrip b :
  from_str_radix16 (hex_digit (Byte.to_N b / 16)) (hex_digit (Byte.to_N b mod 16))
    = Some b /\
  ascii_eqb (hex_digit (Byte.to_N b / 16)) " " = false.
Proof. destruct b; split; reflexivity. Qed.

Lemma scan_hex_cells line rest :
  scan_hex (concat (map (fun b => hex2 b ++ [" "]) line) ++ " " :: " " :: rest)
    = Ok_ line.
Proof.
  induction line as [|b line IH]; [reflexivity|].
  destruct (hex2_roundtrip b) as [Hb Hsp].
  cbn [map concat]. rewrite <- !app_assoc. unfold hex2 at 1.
  cbn [app scan_hex]. rewrite Hsp, Hb. cbn [andb]. rewrite IH. reflexivity.
Qed.

Lemma blank_slots_then_gap k r :
  exists r', concat (repeat (s2l "   ") k) ++ s2l "    " ++ r = " " :: " " :: r'.
Proof. destruct k; eexists; reflexivity. Qed.

Lemma scan_hex_row_line line :
  (length line <= LINE)%nat -> scan_hex (row_line line) = Ok_ line.
Proof.
  intros Hl. unfold row_line, hex_col.
  rewrite hex_cells_padded by exact Hl.
  destruct (blank_slots_then_gap (LINE - length line)
              (concat (map ascii_entry line))) as [r' Hr'].
  rewrite <- app_assoc, Hr'. apply scan_hex_cells.
Qed.

(** ** [BufRead::lines] on the encoder's output *)

Lemma ascii_eqb_refl c : ascii_eqb c c = true.
Proof. unfold ascii_eqb. destruct (ascii_dec c c); congruence. Qed.

Lemma ascii_eqb_neq c d : c <> d -> ascii_eqb c d = false.
Proof. unfold ascii_eqb. destruct (ascii_dec c d); congruence. Qed.

Lemma clean_line_app a b :
  clean_line (a ++ b) = clean_line a && clean_line b.
Proof. apply forallb_app. Qed.

Lemma clean_line_concat ls :
  (forall l, In l ls -> clean_line l = true) -> clean_line (concat ls) = true.
Proof.
  induction ls as [|l ls IH]; intros H; [reflexivity|].
  simpl. rewrite clean_line_app, H, IH.
  - reflexivity.
  - intros l' Hl'. apply H. right. exact Hl'.
  - left. reflexivity.
Qed.

Lemma clean_line_In l c :
  clean_line l = true -> In c l -> c <> NL /\ c <> CR.
Proof.
  intros Hl Hc. unfold clean_line in Hl. rewrite forallb_forall in Hl.
  specialize (Hl c Hc). apply andb_true_iff in Hl as [H1 H2].
  unfold ascii_eqb in *.
  destruct (ascii_dec c NL), (ascii_dec c CR); simpl in *; split; congruence.
Qed.

Lemma strip_cr_clean l : clean_line l = true -> strip_cr l = l.
Proof.
  intros Hl. unfold strip_cr.
  destruct (rev l) as [|c r] eqn:E; [reflexivity|].
  assert (Hc : In c l) by (apply in_rev; rewrite E; left; reflexivity).
  destruct (clean_line_In l c Hl Hc) as [_ Hcr].
  rewrite ascii_eqb_neq by exact Hcr. reflexivity.
Qed.

Lemma lines_aux_line cur l r :
  clean_line l = true ->
  lines_aux cur (l ++ NL :: r) = strip_cr (rev cur ++ l) :: lines_aux [] r.
Proof.
  revert cur. induction l as [|c l IH]; intros cur Hl.
  - simpl. rewrite ?ascii_eqb_refl, app_nil_r. reflexivity.
  - simpl in Hl. apply andb_true_iff in Hl as [Hc Hl].
    apply andb_true_iff in Hc as [Hnl _]. apply negb_true_iff in Hnl.
    simpl. rewrite Hnl, IH by exact Hl. simpl. rewrite <- app_assoc. reflexivity.
Qed.

Lemma lines_unlines ls :
  (forall l, In l ls -> clean_line l = true) -> lines (unlines ls) = ls.
Proof.
  unfold lines. induction ls as [|l ls IH]; intros H; [reflexivity|].
  unfold unlines. cbn [map concat]. rewrite <- app_assoc. simpl app.
  rewrite lines_aux_line by (apply H; left; reflexivity). simpl.
  rewrite strip_cr_clean by (apply H; left; reflexivity).
  fold (unlines ls). rewrite IH; [reflexivity|].
  intros l' Hl'. apply H. right. exact Hl'.
Qed.

Lemma dec_digit_cases k :
  (k < 10)%N ->
  is_digit (dec_digit k) = true /\ clean_line [dec_digit k] = true /\
  dec_digit k <> " " /\ lower (dec_digit k) = dec_digit k.
Proof.
  intros Hk.
  assert (k = 0 \/ k = 1 \/ k = 2 \/ k = 3 \/ k = 4 \/ k = 5 \/ k = 6 \/
          k = 7 \/ k = 8 \/ k = 9)%N as Hc by lia.
  repeat destruct Hc as [-> | Hc]; subst; repeat split;
    try reflexivity; discriminate.
Qed.

Lemma digits_rev_digits fuel n c :
  In c (digits_rev fuel n) -> exists k, (k < 10)%N /\ c = dec_digit k.
Proof.
  revert n. induction fuel as [|f IH]; intros n Hc; [destruct Hc|].
  simpl in Hc. destruct Hc as [Hc|Hc].
  - exists (n mod 10)%N. split; [apply N.mod_lt; discriminate|symmetry; exact Hc].
  - destruct (n <? 10)%N; [destruct Hc|]. eapply IH. exact Hc.
Qed.

Lemma show_N_digits n c :
  In c (show_N n) -> exists k, (k < 10)%N /\ c = dec_digit k.
Proof.
  unfold show_N. rewrite <- in_rev. apply digits_rev_digits.
Qed.

Lemma show_N_nonempty n : show_N n <> [].
Proof.
  unfold show_N. simpl. intros H.
  apply (f_equal (@length _)) in H. rewrite length_app in H. simpl in H. lia.
Qed.

Lemma clean_line_digits l :
  (forall c, In c l -> exists k, (k < 10)%N /\ c = dec_digit k) ->
  clean_line l = true.
Proof.
  intros H. unfold clean_line. apply forallb_forall. intros c Hc.
  destruct (H c Hc) as [k [Hk ->]].
  destruct (dec_digit_cases k Hk) as [_ [Hcl _]].
  simpl in Hcl. rewrite andb_true_r in Hcl. exact Hcl.
Qed.

Lemma fmt_secs3_shape ms :
  exists a b c,
    fmt_secs3 ms = show_N (Z.to_N ms / 1000) ++ ["."; a; b; c] /\
    Forall (fun x => exists k, (k < 10)%N /\ x = dec_digit k) [a; b; c].
Proof.
  unfold fmt_secs3. do 3 eexists. split; [reflexivity|].
  repeat constructor; eexists; (split; [apply N.mod_lt; discriminate|reflexivity]).
Qed.

Lemma clean_line_intro l :
  (forall c, In c l -> c <> NL /\ c <> CR) -> clean_line l = true.
Proof.
  intros H. unfold clean_line. apply forallb_forall. intros c Hc.
  destruct (H c Hc) as [H1 H2].
  rewrite !ascii_eqb_neq by assumption. reflexivity.
Qed.

Lemma digit_not_special c :
  is_digit c = true ->
  c <> NL /\ c <> CR /\ c <> " " /\ c <> "." /\ c <> "s" /\ c <> "+" /\
  c <> "-" /\ c <> "i" /\ c <> "n" /\ c <> "/".
Proof. intros H. repeat split; intros ->; discriminate. Qed.

Lemma dec_digit_is_digit k : (k < 10)%N -> is_digit (dec_digit k) = true.
Proof. intros Hk. apply (dec_digit_cases k Hk). Qed.

Lemma fmt_secs3_chars ms c :
  In c (fmt_secs3 ms) -> is_digit c = true \/ c = ".".
Proof.
  destruct (fmt_secs3_shape ms) as [a [b [d [Heq Hd]]]]. rewrite Heq.
  intros Hc. apply in_app_or in Hc as [Hc|Hc].
  - left. destruct (show_N_digits _ _ Hc) as [k [Hk ->]].
    apply dec_digit_is_digit. exact Hk.
  - destruct Hc as [<-|Hc]; [right; reflexivity|left].
    rewrite Forall_forall in Hd. destruct (Hd c Hc) as [k [Hk ->]].
    apply dec_digit_is_digit. exact Hk.
Qed.

Lemma show_N_chars n c : In c (show_N n) -> is_digit c = true.
Proof.
  intros Hc. destruct (show_N_digits _ _ Hc) as [k [Hk ->]].
  apply dec_digit_is_digit. exact Hk.
Qed.

Lemma clean_header dir ms n : clean_line (header_line dir ms n) = true.
Proof.
  unfold header_line. rewrite !clean_line_app.
  rewrite (clean_line_intro (fmt_secs3 ms)).
  2:{ intros c Hc. destruct (fmt_secs3_chars ms c Hc) as [Hd| ->].
      - apply digit_not_special in Hd. tauto.
      - split; discriminate. }
  rewrite (clean_line_intro (show_N (N.of_nat n))).
  2:{ intros c Hc. apply show_N_chars, digit_not_special in Hc. tauto. }
  unfold dir_text. destruct (Direction_eqb dir Write); reflexivity.
Qed.

Lemma clean_row_line line : clean_line (row_line line) = true.
Proof.
  unfold row_line, hex_col. rewrite !clean_line_app.
  rewrite !clean_line_concat; [reflexivity| |].
  - intros l Hl. apply in_map_iff in Hl as [b [<- _]].
    destruct b; reflexivity.
  - intros l Hl. apply in_map_iff in Hl as [i [<- _]].
    unfold hex_cell. destruct (length line <=? i)%nat; [reflexivity|].
    rewrite clean_line_app. generalize (nth i line Byte.x00) as b.
    intros b. destruct b; reflexivity.
Qed.

Lemma clean_record dir ms data l :
  In l (record_lines dir ms data) -> clean_line l = true.
Proof.
  unfold record_lines. intros [<-|Hl]; [apply clean_header|].
  apply in_app_or in Hl as [Hl|[<-|[]]]; [|reflexivity].
  apply in_map_iff in Hl as [r [<- _]]. apply clean_row_line.
Qed.

(** ** Parsing the header the encoder writes *)

Lemma split_on_app c a b :
  (forall x, In x a -> x <> c) -> split_on c (a ++ c :: b) = a :: split_on c b.
Proof.
  induction a as [|x a IH]; intros H.
  - simpl. rewrite ascii_eqb_refl. reflexivity.
  - simpl. rewrite ascii_eqb_neq by (apply H; left; reflexivity).
    rewrite IH by (intros y Hy; apply H; right; exact Hy). reflexivity.
Qed.

Lemma split_on_none c a :
  (forall x, In x a -> x <> c) -> split_on c a = [a].
Proof.
  induction a as [|x a IH]; intros H; [reflexivity|].
  simpl. rewrite ascii_eqb_neq by (apply H; left; reflexivity).
  rewrite IH by (intros y Hy; apply H; right; exact Hy). reflexivity.
Qed.

Lemma split_on_sep c r : split_on c (c :: r) = [] :: split_on c r.
Proof. simpl. rewrite ascii_eqb_refl. reflexivity. Qed.

Lemma header_layout dir ms n :
  header_line dir ms n =
  dir_token dir ++ " " :: " " :: (fmt_secs3 ms ++ ["s"]) ++ " " :: " "
    :: show_N (N.of_nat n) ++ " " :: s2l "bytes".
Proof.
  unfold header_line, dir_text, dir_token.
  destruct (Direction_eqb dir Write); simpl; rewrite <- !app_assoc; reflexivity.
Qed.

Lemma secs_token_no_space ms x : In x (fmt_secs3 ms ++ ["s"]) -> x <> " ".
Proof.
  intros Hx. apply in_app_or in Hx as [Hx|[<-|[]]]; [|discriminate].
  destruct (fmt_secs3_chars ms x Hx) as [Hd| ->]; [|discriminate].
  apply digit_not_special in Hd. tauto.
Qed.

Lemma tokens_header dir ms n :
  tokens (header_line dir ms n) =
  [dir_token dir; fmt_secs3 ms ++ ["s"]; show_N (N.of_nat n); s2l "bytes"].
Proof.
  rewrite header_layout. unfold tokens.
  rewrite split_on_app
    by (unfold dir_token; destruct (Direction_eqb dir Write);
        simpl; intros x [<-|[<-|[]]]; discriminate).
  rewrite split_on_sep, split_on_app by apply secs_token_no_space.
  rewrite split_on_sep, split_on_app
    by (intros x Hx; apply show_N_chars, digit_not_special in Hx; tauto).
  rewrite split_on_none by (simpl; intros x Hx; intuition (subst; discriminate)).
  assert (Hs : match fmt_secs3 ms ++ ["s"] with [] => true | _ => false end
               = false) by (destruct (fmt_secs3 ms); reflexivity).
  assert (Hn : match show_N (N.of_nat n) with [] => true | _ => false end
               = false).
  { destruct (show_N (N.of_nat n)) eqn:E; [|reflexivity].
    exfalso. exact (show_N_nonempty _ E). }
  unfold dir_token. destruct (Direction_eqb dir Write);
    cbn [filter]; rewrite Hs, Hn; reflexivity.
Qed.

Lemma span_digits_app ds r :
  (forall c, In c ds -> is_digit c = true) ->
  span_digits (ds ++ r) = (ds ++ fst (span_digits r), snd (span_digits r)).
Proof.
  induction ds as [|d ds IH]; intros H.
  - simpl. destruct (span_digits r); reflexivity.
  - simpl. rewrite H by (left; reflexivity).
    rewrite IH by (intros c Hc; apply H; right; exact Hc). reflexivity.
Qed.

Lemma lower_digit c : is_digit c = true -> lower c = c.
Proof.
  unfold is_digit, lower. intros H.
  apply andb_true_iff in H as [H1 H2]. apply Nat.leb_le in H1, H2.
  destruct ((65 <=? nat_of_ascii c) && (nat_of_ascii c <=? 90))%nat eqn:E;
    [|reflexivity].
  apply andb_true_iff in E as [E1 _]. apply Nat.leb_le in E1. lia.
Qed.

Lemma str_eqb_head_neq c d l m : c <> d -> str_eqb (c :: l) (d :: m) = false.
Proof.
  intros H. unfold str_eqb. destruct (list_eq_dec ascii_dec _ _) as [E|E];
    [injection E; intros; congruence|reflexivity].
Qed.

Lemma parse_f64_decimal ds ds2 :
  ds <> [] ->
  (forall c, In c ds -> is_digit c = true) ->
  (forall c, In c ds2 -> is_digit c = true) ->
  exists q, parse_f64 (ds ++ "." :: ds2) = Some (Finite q).
Proof.
  intros Hne Hds Hds2.
  destruct ds as [|d ds']; [congruence|].
  pose proof (Hds d (or_introl eq_refl)) as Hd.
  destruct (digit_not_special d Hd) as (_ & _ & _ & _ & _ & Hp & Hm & Hi & Hn & _).
  unfold parse_f64. cbn [app]. rewrite !ascii_eqb_neq by assumption.
  cbn [map]. rewrite lower_digit by exact Hd.
  unfold s2l; cbn [list_ascii_of_string].
  rewrite !str_eqb_head_neq by assumption. cbn [orb].
  unfold parse_number.
  change (d :: ds' ++ "." :: ds2) with ((d :: ds') ++ "." :: ds2).
  rewrite span_digits_app by exact Hds.
  cbn [span_digits fst snd]. rewrite app_nil_r.
  assert (Hdot : is_digit "." = false) by reflexivity. rewrite Hdot.
  cbn [fst snd]. rewrite ascii_eqb_refl.
  rewrite <- (app_nil_r ds2), span_digits_app by exact Hds2.
  cbn [span_digits fst snd]. rewrite app_nil_r.
  eexists. reflexivity.
Qed.

Lemma parse_f64_secs ms : exists q, parse_f64 (fmt_secs3 ms) = Some (Finite q).
Proof.
  destruct (fmt_secs3_shape ms) as [a [b [c [Heq Hd]]]]. rewrite Heq.
  apply parse_f64_decimal.
  - apply show_N_nonempty.
  - apply show_N_chars.
  - rewrite Forall_forall in Hd. intros x Hx.
    destruct (Hd x Hx) as [k [Hk ->]]. apply dec_digit_is_digit. exact Hk.
Qed.

(** ** Reading back one record *)

Lemma row_line_cons line : exists c r, row_line line = c :: r.
Proof.
  unfold row_line, hex_col. change (seq 0 LINE) with (0 :: seq 1 24).
  cbn [map concat]. unfold hex_cell at 1.
  destruct (length line <=? 0)%nat; cbn [app]; do 2 eexists; reflexivity.
Qed.

Lemma read_body_rows dir el acc rows rest :
  Forall (fun r => length r <= LINE)%nat rows ->
  read_body dir el acc (map row_line rows ++ [] :: rest) =
  (Ok_ (Some (mkPacket dir el (acc ++ concat rows))), rest).
Proof.
  revert acc. induction rows as [|r rows IH]; intros acc Hr.
  - simpl. rewrite app_nil_r. reflexivity.
  - inversion Hr as [|? ? Hr1 Hrs]; subst.
    cbn [map app]. destruct (row_line_cons r) as [c [t Ht]].
    cbn [read_body]. rewrite Ht. rewrite <- Ht.
    rewrite scan_hex_row_line by exact Hr1.
    rewrite IH by exact Hrs. cbn [concat]. rewrite app_assoc. reflexivity.
Qed.

Lemma read_packet_record dir ms data rest :
  exists el,
    read_packet (record_lines dir ms data ++ rest) =
    (Ok_ (Some (mkPacket dir el data)), rest).
Proof.
  destruct (parse_f64_secs ms) as [q Hq].
  exists (from_millis (f64_millis_to_u64 (Finite q))).
  unfold record_lines. cbn [app read_packet].
  rewrite tokens_header.
  assert (Htok : str_eqb (dir_token dir) (s2l "//") = false)
    by (unfold dir_token; destruct (Direction_eqb dir Write); reflexivity).
  cbn [nth length Nat.eqb negb orb]. rewrite Htok. cbn [orb negb].
  assert (Hdir : dir_of (dir_token dir) = Some dir)
    by (destruct dir; reflexivity).
  rewrite Hdir.
  rewrite length_app, Nat.add_sub, firstn_app, Nat.sub_diag, firstn_all,
    firstn_O, app_nil_r, Hq.
  rewrite <- app_assoc. cbn [app].
  rewrite read_body_rows.
  - cbn [app]. rewrite rows_of_concat by lia. reflexivity.
  - eapply Forall_impl; [|apply rows_of_bounds]. simpl. lia.
Qed.

(** ** Whole captures *)

Lemma unlines_app a b : unlines (a ++ b) = unlines a ++ unlines b.
Proof. unfold unlines. rewrite map_app, concat_app. reflexivity. Qed.

Lemma op_record_some start o :
  instant_sub (op_clock o) start <> None ->
  exists d, instant_sub (op_clock o) start = Some d /\
            op_record start o = record_lines (op_dir o) (millis d) (op_data o).
Proof.
  unfold op_record. destruct (instant_sub (op_clock o) start) as [d|];
    [|congruence]. intros _. exists d. split; reflexivity.
Qed.

Lemma capture_text start log ops :
  Forall (fun o => instant_sub (op_clock o) start <> None) ops ->
  capture start log ops =
  (log ++ unlines (concat (map (op_record start) ops)), Ok_ tt).
Proof.
  revert log. induction ops as [|o ops IH]; intros log Hops.
  - simpl. rewrite app_nil_r. reflexivity.
  - inversion Hops as [|? ? Ho Hrest]; subst.
    destruct (op_record_some start o Ho) as [d [Hd Hrec]].
    cbn [capture map concat].
    rewrite (write_packet_emits start (op_clock o) d (op_dir o) (op_data o) Hd).
    rewrite IH by exact Hrest.
    rewrite Hrec, unlines_app, app_assoc. reflexivity.
Qed.

Lemma clean_capture start ops l :
  In l (concat (map (op_record start) ops)) -> clean_line l = true.
Proof.
  intros Hl. apply in_concat in Hl as [ls [Hls Hl]].
  apply in_map_iff in Hls as [o [<- _]].
  unfold op_record in Hl. destruct (instant_sub (op_clock o) start);
    [|destruct Hl]. eapply clean_record. exact Hl.
Qed.

Lemma capture_lines_length start ops :
  Forall (fun o => instant_sub (op_clock o) start <> None) ops ->
  (length ops <= length (concat (map (op_record start) ops)))%nat.
Proof.
  induction ops as [|o ops IH]; intros Hops; [simpl; lia|].
  inversion Hops as [|? ? Ho Hrest]; subst.
  destruct (op_record_some start o Ho) as [d [_ Hrec]].
  cbn [map concat]. rewrite length_app, Hrec. specialize (IH Hrest).
  unfold record_lines. cbn [length]. lia.
Qed.

Lemma collect_records start fuel ops :
  (length ops < fuel)%nat ->
  Forall (fun o => instant_sub (op_clock o) start <> None) ops ->
  exists ps,
    collect fuel (concat (map (op_record start) ops)) = Some (ps, Ok_ tt) /\
    map (fun p => (direction p, data p)) ps =
    map (fun o => (op_dir o, op_data o)) ops.
Proof.
  revert fuel. induction ops as [|o ops IH]; intros fuel Hf Hops.
  - destruct fuel as [|f]; [simpl in Hf; lia|].
    exists []. split; reflexivity.
  - destruct fuel as [|f]; [simpl in Hf; lia|].
    inversion Hops as [|? ? Ho Hrest]; subst.
    destruct (op_record_some start o Ho) as [d [_ Hrec]].
    destruct (IH f ltac:(simpl in Hf; lia) Hrest) as [ps [Hps Hmap]].
    destruct (read_packet_record (op_dir o) (millis d) (op_data o)
                (concat (map (op_record start) ops))) as [el Hel].
    exists (mkPacket (op_dir o) el (op_data o) :: ps).
    cbn [map concat collect]. rewrite Hrec. unfold next. rewrite Hel, Hps.
    split; [reflexivity|]. cbn [map]. rewrite Hmap. reflexivity.
Qed.

(** ** C1: round trip *)

(** C1.  For every finite sequence of calls captured by a decorator into an
    in-memory sink (each at a clock reading not before the session start),
    the capture succeeds, and draining a [DumpRead] over the resulting text
    yields, in order, exactly one packet per call, with the call's direction
    and payload bytes, and then ends normally. *)
Theorem capture_read_roundtrip (start : Duration) (ops : list Op)
    (Hclk : Forall (fun o => instant_sub (op_clock o) start <> None) ops) :
  exists text ps,
    capture start [] ops = (text, Ok_ tt) /\
    read_dump text = Some (ps, Ok_ tt) /\
    map (fun p => (direction p, data p)) ps =
    map (fun o => (op_dir o, op_data o)) ops.
Proof.
  rewrite (capture_text start [] ops Hclk). cbn [app].
  set (ls := concat (map (op_record start) ops)).
  assert (Hls : lines (unlines ls) = ls)
    by (apply lines_unlines; apply clean_capture).
  pose proof (capture_lines_length start ops Hclk) as Hlen. fold ls in Hlen.
  destruct (collect_records start (S (length ls)) ops ltac:(lia) Hclk)
    as [ps [Hps Hmap]].
  exists (unlines ls), ps. split; [reflexivity|]. split; [|exact Hmap].
  unfold read_dump. rewrite Hls. exact Hps.
Qed.

Lemma capture_read_roundtrip_witness :
  Forall (fun o => instant_sub (op_clock o) (mkDuration 0 0) <> None)
    [mkOp Write [Byte.x50; Byte.x52; Byte.x49] (mkDuration 0 1000000);
     mkOp Read [] (mkDuration 0 2000000)] /\
  exists text ps,
    capture (mkDuration 0 0) []
      [mkOp Write [Byte.x50; Byte.x52; Byte.x49] (mkDuration 0 1000000);
       mkOp Read [] (mkDuration 0 2000000)] = (text, Ok_ tt) /\
    read_dump text = Some (ps, Ok_ tt) /\
    map (fun p => (direction p, data p)) ps =
    map (fun o => (op_dir o, op_data o))
      [mkOp Write [Byte.x50; Byte.x52; Byte.x49] (mkDuration 0 1000000);
       mkOp Read [] (mkDuration 0 2000000)].
Proof.
  assert (H : Forall (fun o => instant_sub (op_clock o) (mkDuration 0 0) <> None)
    [mkOp Write [Byte.x50; Byte.x52; Byte.x49] (mkDuration 0 1000000);
     mkOp Read [] (mkDuration 0 2000000)])
    by (repeat constructor; discriminate).
  split; [exact H|].
  exact (capture_read_roundtrip (mkDuration 0 0) _ H).
Defined.

(** ** C5: zero-byte operations *)

(** C5.  A zero-byte transfer still writes a whole record: a header stating
    [0] bytes, no data row, and one blank line; reading that text back gives
    a packet of the same direction with empty data, and nothing else. *)
Theorem zero_byte_record (now clock d : Duration) (dir : Direction)
    (Hclk : instant_sub clock now = Some d) :
  emits (write_packet (list ascii) buf_write_fmt buf_write now clock dir [])
    (header_line dir (millis d) 0 ++ [NL] ++ [NL]) /\
  nth 2 (tokens (header_line dir (millis d) 0)) [] = s2l "0" /\
  exists el,
    read_packet (lines (header_line dir (millis d) 0 ++ [NL] ++ [NL])) =
    (Ok_ (Some (mkPacket dir el [])), []).
Proof.
  assert (Htext : header_line dir (millis d) 0 ++ [NL] ++ [NL] =
                  unlines (record_lines dir (millis d) []))
    by (unfold unlines, record_lines; simpl; rewrite <- app_assoc; reflexivity).
  split; [|split].
  - rewrite Htext. apply write_packet_emits. exact Hclk.
  - rewrite tokens_header. reflexivity.
  - rewrite Htext, lines_unlines by apply clean_record.
    rewrite <- (app_nil_r (record_lines dir (millis d) [])).
    apply read_packet_record.
Qed.

Lemma zero_byte_record_witness :
  instant_sub (mkDuration 0 2000000) (mkDuration 0 0)
    = Some (mkDuration 0 2000000) /\
  (emits (write_packet (list ascii) buf_write_fmt buf_write
            (mkDuration 0 0) (mkDuration 0 2000000) Read [])
     (header_line Read (millis (mkDuration 0 2000000)) 0 ++ [NL] ++ [NL]) /\
   nth 2 (tokens (header_line Read (millis (mkDuration 0 2000000)) 0)) []
     = s2l "0" /\
   exists el,
     read_packet (lines (header_line Read (millis (mkDuration 0 2000000)) 0
                           ++ [NL] ++ [NL])) =
     (Ok_ (Some (mkPacket Read el [])), [])).
Proof.
  assert (H : instant_sub (mkDuration 0 2000000) (mkDuration 0 0)
              = Some (mkDuration 0 2000000)) by reflexivity.
  split; [exact H|].
  exact (zero_byte_record (mkDuration 0 0) (mkDuration 0 2000000)
           (mkDuration 0 2000000) Read H).
Defined.

(** ** C9: end of input inside a body *)

Lemma read_body_eof dir el acc bs vs :
  Forall2 (fun l v => l <> [] /\ scan_hex l = Ok_ v) bs vs ->
  read_body dir el acc bs = (Ok_ (Some (mkPacket dir el (acc ++ concat vs))), []).
Proof.
  intros H. revert acc. induction H as [|l v bs vs [Hne Hs] _ IH]; intros acc.
  - simpl. rewrite app_nil_r. reflexivity.
  - cbn [read_body]. destruct l as [|c l]; [congruence|].
    rewrite Hs, IH. cbn [concat]. rewrite app_assoc. reflexivity.
Qed.

(** C9.  When the input ends after a header and some body rows, before any
    blank line, [read_packet] treats the end of input as the blank
    terminator: it returns the packet with the bytes decoded so far, not an
    error, and leaves no input. *)
Theorem eof_in_body_completes (h : list ascii) (t0 t1 t2 t3 : list ascii)
    (dir : Direction) (el : F64)
    (bs : list (list ascii)) (vs : list (list Byte.byte))
    (Hh : tokens h = [t0; t1; t2; t3])
    (Hdir : dir_of t0 = Some dir)
    (Hel : parse_f64 (firstn (length t1 - 1) t1) = Some el)
    (Hbody : Forall2 (fun l v => l <> [] /\ scan_hex l = Ok_ v) bs vs) :
  read_packet (h :: bs) =
  (Ok_ (Some (mkPacket dir (from_millis (f64_millis_to_u64 el)) (concat vs))), []).
Proof.
  cbn [read_packet]. rewrite Hh.
  assert (Hc : str_eqb t0 (s2l "//") = false).
  { unfold dir_of in Hdir. unfold str_eqb in *.
    destruct (list_eq_dec ascii_dec t0 (s2l "//")) as [->|]; [|reflexivity].
    discriminate. }
  cbn [nth length Nat.eqb negb orb]. rewrite Hc. cbn [orb negb].
  rewrite Hdir, Hel. rewrite (read_body_eof _ _ [] bs vs Hbody). reflexivity.
Qed.

Lemma eof_in_body_completes_witness :
  tokens (s2l "->  0.002s  1 bytes") =
    [s2l "->"; s2l "0.002s"; s2l "1"; s2l "bytes"] /\
  dir_of (s2l "->") = Some Read /\
  parse_f64 (firstn (length (s2l "0.002s") - 1) (s2l "0.002s"))
    = Some (Finite (2 # 1000)) /\
  Forall2 (fun l v => l <> [] /\ scan_hex l = Ok_ v)
    [row_line [Byte.x41]] [[Byte.x41]] /\
  read_packet (s2l "->  0.002s  1 bytes" :: [row_line [Byte.x41]]) =
  (Ok_ (Some (mkPacket Read (from_millis (f64_millis_to_u64 (Finite (2 # 1000))))
                (concat [[Byte.x41]]))), []).
Proof.
  assert (H1 : tokens (s2l "->  0.002s  1 bytes") =
               [s2l "->"; s2l "0.002s"; s2l "1"; s2l "bytes"]) by reflexivity.
  assert (H2 : dir_of (s2l "->") = Some Read) by reflexivity.
  assert (H3 : parse_f64 (firstn (length (s2l "0.002s") - 1) (s2l "0.002s"))
               = Some (Finite (2 # 1000))) by reflexivity.
  assert (H4 : Forall2 (fun l v => l <> [] /\ scan_hex l = Ok_ v)
                 [row_line [Byte.x41]] [[Byte.x41]])
    by (repeat constructor; vm_compute; discriminate).
  refine (conj H1 (conj H2 (conj H3 (conj H4 _)))).
  exact (eof_in_body_completes _ _ _ _ _ Read _ _ _ H1 H2 H3 H4).
Defined.

(** ** C3: malformed headers *)





(** ** C8: blank and comment lines before a header *)

(** C8.  A line is skipped before a header only when it has no token or its
    first space-separated token is exactly [//].  A comment written
    [//comment], without a space after the slashes, is not skipped: the
    reader takes it as a one-token header and panics, while the same input
    with [// comment] decodes the following record. *)
Theorem comment_without_space_not_skipped :
  (forall l rest,
     (tokens l = [] \/ nth 0 (tokens l) [] = s2l "//") ->
     read_packet (l :: rest) = read_packet rest) /\
  read_packet [s2l "   "; s2l "->  0.001s  0 bytes"; []] =
    read_packet [s2l "->  0.001s  0 bytes"; []] /\
  read_packet [s2l "//comment"; s2l "->  0.001s  0 bytes"; []] =
    (Panic, [s2l "->  0.001s  0 bytes"; []]) /\
  read_packet [s2l "// comment"; s2l "->  0.001s  0 bytes"; []] =
    (Ok_ (Some (mkPacket Read (mkDuration 0 1000000) [])), []).
Proof.
  split; [|split; [|split]]; try reflexivity.
  intros l rest [H|H]; cbn [read_packet].
  - rewrite H. reflexivity.
  - rewrite H. destruct (tokens l); reflexivity.
Qed.

(** ** C4: results of the decorator's [read] and [write] *)

Section DecoratorResults.

Variables (Sink Up : Type).
Variable fmt : Sink -> list ascii -> Sink * option IoError.
Variable wr : Sink -> list ascii -> Sink * (nat + IoError).
Variable up_read : Up -> list Byte.byte -> Up * list Byte.byte * (nat + IoError).
Variable up_write : Up -> list Byte.byte -> Up * (nat + IoError).

Lemma sink_outcome_write_fmt t : sink_outcome fmt wr (write_fmt Sink fmt t).
Proof.
  intros s. unfold write_fmt. destruct (fmt s t) as [s' [e|]] eqn:E; cbn [snd];
    [left; exists s, t, s'; exact E|exact I].
Qed.

Lemma sink_outcome_write_raw t : sink_outcome fmt wr (write_raw Sink wr t).
Proof.
  intros s. unfold write_raw. destruct (wr s t) as [s' [k|e]] eqn:E; cbn [snd];
    [exact I|right; exists s, t, s'; exact E].
Qed.

Lemma sink_outcome_ret {A} (a : A) : sink_outcome fmt wr (ret a).
Proof. intros s. exact I. Qed.

Lemma sink_outcome_bind {A B} (m : M Sink A) (k : A -> M Sink B) :
  sink_outcome fmt wr m -> (forall a, sink_outcome fmt wr (k a)) ->
  sink_outcome fmt wr (bind m k).
Proof.
  intros Hm Hk s. unfold bind. specialize (Hm s).
  destruct (m s) as [s' [a|e|]]; cbn [snd] in *; [apply Hk|exact Hm|exact Hm].
Qed.

Lemma sink_outcome_for {X} (l : list X) f :
  (forall x, sink_outcome fmt wr (f x)) -> sink_outcome fmt wr (for_ l f).
Proof.
  intros Hf. induction l as [|x l IH]; cbn [for_].
  - apply sink_outcome_ret.
  - apply sink_outcome_bind; [apply Hf|intros _; exact IH].
Qed.

Lemma sink_outcome_write_data_line line :
  sink_outcome fmt wr (write_data_line Sink fmt wr line).
Proof.
  unfold write_data_line.
  apply sink_outcome_bind; [|intros _].
  { apply sink_outcome_for. intros i0.
    destruct (length line <=? i0)%nat; apply sink_outcome_write_fmt. }
  apply sink_outcome_bind; [apply sink_outcome_write_fmt|intros _].
  apply sink_outcome_bind; [|intros _; apply sink_outcome_write_fmt].
  { apply sink_outcome_for. intros byte. cbv zeta.
    repeat match goal with
           | |- sink_outcome _ _ (if ?c then _ else _) => destruct c
           end;
      try apply sink_outcome_write_fmt.
    apply sink_outcome_bind; [apply sink_outcome_write_raw|].
    intros; apply sink_outcome_ret. }
Qed.

Lemma sink_outcome_data_rows fuel pos data :
  sink_outcome fmt wr (data_rows Sink fmt wr fuel pos data).
Proof.
  revert pos. induction fuel as [|f IH]; intros pos; cbn [data_rows].
  - apply sink_outcome_ret.
  - destruct (pos <? length data)%nat; [|apply sink_outcome_ret].
    apply sink_outcome_bind; [apply sink_outcome_write_data_line|].
    intros _. apply IH.
Qed.

Lemma sink_outcome_inner_write_packet (i : Inner Sink) clock d dir data :
  instant_sub clock (now i) = Some d ->
  forall i' r, inner_write_packet Sink fmt wr i clock dir data = (i', r) ->
  r = Ok_ tt \/ exists e, r = Err_ e /\ sink_error fmt wr e.
Proof.
  intros Hd i' r E.
  assert (H : sink_outcome fmt wr
                (write_packet Sink fmt wr (now i) clock dir data)).
  { unfold write_packet.
    apply sink_outcome_bind;
      [destruct (Direction_eqb dir Write); apply sink_outcome_write_fmt|].
    intros _. rewrite Hd.
    repeat (apply sink_outcome_bind; [|intros _]);
      try apply sink_outcome_write_fmt; apply sink_outcome_data_rows. }
  specialize (H (dump i)). unfold inner_write_packet in E.
  destruct (write_packet Sink fmt wr (now i) clock dir data (dump i))
    as [s' r'] eqn:Ew.
  injection E as _ <-. cbn [snd] in H.
  destruct r' as [[]|e|]; [left; reflexivity|right; exists e; split; auto|].
  destruct H.
Qed.

(** C4.  On a capturing decorator whose clock has not gone back since it
    was created, an error of the wrapped stream is returned unchanged (and
    nothing is logged); when the wrapped stream transfers [n] bytes, the
    packet [dst[0..n]] / [src[0..n]] is logged and the call returns [n] if
    logging succeeded, or else an error that one of the sink's writes
    returned, although the transfer itself happened; there is no other
    outcome. *)
Theorem dump_call_results (up : Up) (i : Inner Sink) (clock d : Duration)
    (Hd : instant_sub clock (now i) = Some d) :
  (forall dst up' dst' e,
     up_read up dst = (up', dst', inr e) ->
     dump_read Sink Up fmt wr up_read (mkDump up (Some i)) clock dst =
       (mkDump up' (Some i), dst', Err_ e)) /\
  (forall dst up' dst' n,
     up_read up dst = (up', dst', inl n) -> (n <= length dst)%nat ->
     let (i', r) := inner_write_packet Sink fmt wr i clock Read (firstn n dst') in
     dump_read Sink Up fmt wr up_read (mkDump up (Some i)) clock dst =
       (mkDump up' (Some i'), dst', log_result n r) /\
     (log_result n r = Ok_ n \/
      exists e, log_result n r = Err_ e /\ sink_error fmt wr e)) /\
  (forall src up' e,
     up_write up src = (up', inr e) ->
     dump_write Sink Up fmt wr up_write (mkDump up (Some i)) clock src =
       (mkDump up' (Some i), Err_ e)) /\
  (forall src up' n,
     up_write up src = (up', inl n) -> (n <= length src)%nat ->
     let (i', r) := inner_write_packet Sink fmt wr i clock Write (firstn n src) in
     dump_write Sink Up fmt wr up_write (mkDump up (Some i)) clock src =
       (mkDump up' (Some i'), log_result n r) /\
     (log_result n r = Ok_ n \/
      exists e, log_result n r = Err_ e /\ sink_error fmt wr e)).
Proof.
  split; [|split; [|split]].
  - intros dst up' dst' e H. unfold dump_read. cbn [upstream]. rewrite H.
    reflexivity.
  - intros dst up' dst' n H Hn. unfold dump_read. cbn [upstream inner].
    rewrite H.
    assert (Hlt : (length dst <? n)%nat = false) by (apply Nat.ltb_ge; exact Hn).
    rewrite Hlt.
    destruct (inner_write_packet Sink fmt wr i clock Read (firstn n dst'))
      as [i' r] eqn:E.
    destruct (sink_outcome_inner_write_packet i clock d Read _ Hd i' r E)
      as [-> | [e [-> He]]].
    + split; [reflexivity|left; reflexivity].
    + split; [reflexivity|right; exists e; split; [reflexivity|exact He]].
  - intros src up' e H. unfold dump_write. cbn [upstream]. rewrite H.
    reflexivity.
  - intros src up' n H Hn. unfold dump_write. cbn [upstream inner].
    rewrite H.
    assert (Hlt : (length src <? n)%nat = false) by (apply Nat.ltb_ge; exact Hn).
    rewrite Hlt.
    destruct (inner_write_packet Sink fmt wr i clock Write (firstn n src))
      as [i' r] eqn:E.
    destruct (sink_outcome_inner_write_packet i clock d Write _ Hd i' r E)
      as [-> | [e [-> He]]].
    + split; [reflexivity|left; reflexivity].
    + split; [reflexivity|right; exists e; split; [reflexivity|exact He]].
Qed.

End DecoratorResults.

(** A log sink whose every [write!] fails with the same error. *)
Lemma dump_call_results_witness :
  instant_sub (mkDuration 0 5) (mkDuration 0 0) = Some (mkDuration 0 5) /\
  exists i',
    dump_read (list ascii) unit (fun s t => (s, Some (OtherError 5))) buf_write
      (fun u b => (u, [Byte.x41; Byte.x42], inl 1))
      (mkDump tt (Some (mkInner [] (mkDuration 0 0)))) (mkDuration 0 5)
      [Byte.x00; Byte.x00] =
    (mkDump tt (Some i'), [Byte.x41; Byte.x42], Err_ (OtherError 5)).
Proof.
  assert (Hd : instant_sub (mkDuration 0 5) (mkDuration 0 0)
               = Some (mkDuration 0 5)) by reflexivity.
  split; [exact Hd|].
  pose proof (proj1 (proj2 (dump_call_results (list ascii) unit
    (fun s t => (s, Some (OtherError 5))) buf_write
    (fun u b => (u, [Byte.x41; Byte.x42], inl 1)) (fun u b => (u, inl 1))
    tt (mkInner [] (mkDuration 0 0)) (mkDuration 0 5) (mkDuration 0 5) Hd))
    [Byte.x00; Byte.x00] tt [Byte.x41; Byte.x42] 1 eq_refl
    ltac:(simpl; lia)) as H.
  cbn in H. destruct H as [H _]. eexists. exact H.
Defined.

(** ** C10: the reader's hex scan stays within encoder-written rows *)

Section EncoderRows.

(** A [write!] either writes all its text ([write_all]) or fails. *)
Variable fmt : list ascii -> list ascii -> list ascii * option IoError.
Hypothesis fmt_all_or_error :
  forall s t, fmt s t = (s ++ t, None) \/ exists s' e, fmt s t = (s', Some e).

(** A [Write::write] writes some prefix of its buffer and reports anything. *)
Variable wr : list ascii -> list ascii -> list ascii * (nat + IoError).
Hypothesis wr_prefix : forall s t, exists k r, wr s t = (s ++ firstn k t, r).

Lemma appends_weaken {A} (m : M (list ascii) A) (P Q : list ascii -> Prop) :
  appends m P -> (forall t, P t -> Q t) -> appends m Q.
Proof.
  intros Hm HPQ log log' a E. destruct (Hm _ _ _ E) as [t [-> Ht]].
  exists t. split; [reflexivity|]. apply HPQ, Ht.
Qed.

Lemma appends_bind {A B} (m : M (list ascii) A) (k : A -> M (list ascii) B) P Q :
  appends m P -> (forall a, appends (k a) Q) ->
  appends (bind m k) (fun t => exists t1 t2, t = t1 ++ t2 /\ P t1 /\ Q t2).
Proof.
  intros Hm Hk log log' b E. unfold bind in E.
  destruct (m log) as [s1 [a|e|]] eqn:E1; try discriminate E.
  destruct (Hm _ _ _ E1) as [t1 [-> H1]].
  destruct (Hk a _ _ _ E) as [t2 [-> H2]].
  exists (t1 ++ t2). split; [symmetry; apply app_assoc|]. exists t1, t2. auto.
Qed.

Lemma appends_ret {A} (a : A) : appends (ret a) (fun t => t = []).
Proof.
  intros log log' b E. injection E as <- _. exists []. rewrite app_nil_r. auto.
Qed.

Lemma appends_write_fmt t : appends (write_fmt (list ascii) fmt t) (eq t).
Proof.
  intros log log' a E. unfold write_fmt in E.
  destruct (fmt_all_or_error log t) as [F | [s' [e F]]]; rewrite F in E;
    [|discriminate E].
  injection E as <- _. exists t. auto.
Qed.

Lemma appends_write_raw t :
  appends (write_raw (list ascii) wr t) (fun u => exists k, u = firstn k t).
Proof.
  intros log log' a E. unfold write_raw in E.
  destruct (wr_prefix log t) as [k [r F]]. rewrite F in E.
  destruct r; [|discriminate E]. injection E as <- _.
  exists (firstn k t). split; [reflexivity|]. exists k. reflexivity.
Qed.

Lemma appends_for_eq {X} (l : list X) f g :
  (forall x, appends (f x) (eq (g x))) ->
  appends (for_ l f) (eq (concat (map g l))).
Proof.
  intros Hf. induction l as [|x l IH]; cbn [for_ map concat].
  - apply (appends_weaken _ _ _ (appends_ret tt)). intros t ->. reflexivity.
  - eapply appends_weaken; [apply appends_bind; [apply Hf|intros _; exact IH]|].
    intros t [t1 [t2 [-> [<- <-]]]]. reflexivity.
Qed.

Lemma appends_for_clean {X} (l : list X) f :
  (forall x, appends (f x) (fun t => clean_line t = true)) ->
  appends (for_ l f) (fun t => clean_line t = true).
Proof.
  intros Hf. induction l as [|x l IH]; cbn [for_].
  - apply (appends_weaken _ _ _ (appends_ret tt)). intros t ->. reflexivity.
  - eapply appends_weaken; [apply appends_bind; [apply Hf|intros _; exact IH]|].
    intros t [t1 [t2 [-> [H1 H2]]]]. rewrite clean_line_app, H1, H2. reflexivity.
Qed.

Lemma clean_line_firstn k l : clean_line l = true -> clean_line (firstn k l) = true.
Proof.
  revert l. induction k as [|k IH]; intros [|c l] H; try reflexivity.
  cbn [firstn]. cbn [clean_line forallb] in *. apply andb_prop in H as [H1 H2].
  rewrite H1. apply IH, H2.
Qed.

Lemma appends_ascii_arm byte :
  appends
    (let n := Byte.to_N byte in
     if (n =? 0)%N then write_fmt (list ascii) fmt [BACKSLASH; "0"]
     else if (n =? 9)%N then write_fmt (list ascii) fmt [BACKSLASH; "t"]
     else if (n =? 10)%N then write_fmt (list ascii) fmt [BACKSLASH; "n"]
     else if (n =? 13)%N then write_fmt (list ascii) fmt [BACKSLASH; "r"]
     else if ((32 <=? n)%N && (n <=? 126)%N)%bool then
       (_ <- write_raw (list ascii) wr [" "; ascii_of_byte byte] ;; ret tt)
     else write_fmt (list ascii) fmt [BACKSLASH; "?"])
    (fun t => clean_line t = true).
Proof.
  cbv zeta.
  destruct (Byte.to_N byte =? 0)%N;
    [eapply appends_weaken; [apply appends_write_fmt|intros t <-; reflexivity]|].
  destruct (Byte.to_N byte =? 9)%N;
    [eapply appends_weaken; [apply appends_write_fmt|intros t <-; reflexivity]|].
  destruct (Byte.to_N byte =? 10)%N;
    [eapply appends_weaken; [apply appends_write_fmt|intros t <-; reflexivity]|].
  destruct (Byte.to_N byte =? 13)%N;
    [eapply appends_weaken; [apply appends_write_fmt|intros t <-; reflexivity]|].
  destruct ((32 <=? Byte.to_N byte)%N && (Byte.to_N byte <=? 126)%N)%bool eqn:Hp;
    [|eapply appends_weaken; [apply appends_write_fmt|intros t <-; reflexivity]].
  eapply appends_weaken;
    [apply appends_bind; [apply appends_write_raw|intros _; apply appends_ret]|].
  intros t [t1 [t2 [-> [[k ->] ->]]]]. rewrite app_nil_r.
  apply clean_line_firstn. destruct byte; try discriminate Hp; reflexivity.
Qed.

Lemma appends_write_data_line line :
  appends (write_data_line (list ascii) fmt wr line)
    (fun t => exists r, t = hex_col line ++ s2l "    " ++ r ++ [NL] /\
                        clean_line r = true).
Proof.
  unfold write_data_line.
  eapply appends_weaken.
  - apply appends_bind; [|intros _; apply appends_bind;
                          [|intros _; apply appends_bind; [|intros _]]].
    + apply (appends_for_eq _ _ (hex_cell line)). intros i.
      unfold hex_cell. destruct (length line <=? i)%nat; apply appends_write_fmt.
    + apply appends_write_fmt.
    + apply appends_for_clean. intros byte. apply appends_ascii_arm.
    + apply appends_write_fmt.
  - intros t [t1 [t2 [-> [<- [t3 [t4 [-> [<- [t5 [t6 [-> [H5 <-]]]]]]]]]]]].
    exists t5. split; [reflexivity|exact H5].
Qed.

Lemma scan_hex_hex_col_gap line r :
  (length line <= LINE)%nat -> scan_hex (hex_col line ++ s2l "    " ++ r) = Ok_ line.
Proof.
  intros Hl. unfold hex_col. rewrite hex_cells_padded by exact Hl.
  destruct (blank_slots_then_gap (LINE - length line) r) as [r' Hr'].
  rewrite <- app_assoc, Hr'. apply scan_hex_cells.
Qed.

Lemma clean_hex_col line : clean_line (hex_col line) = true.
Proof.
  unfold hex_col. apply clean_line_concat.
  intros l Hl. apply in_map_iff in Hl as [i [<- _]].
  unfold hex_cell. destruct (length line <=? i)%nat; [reflexivity|].
  rewrite clean_line_app. generalize (nth i line Byte.x00) as b.
  intros b. destruct b; reflexivity.
Qed.

(** C10.  For any log sink whose [write!] writes all its text or fails and
    whose [write] writes some prefix of its buffer (short writes included),
    every row [write_data_line] writes successfully (at most 25 bytes) is
    one line (no line break inside it), and the reader's scan of
    [line[pos..pos+2]], [pos = 0, 3, 6, ...], on it meets a two-space group
    before running past the end of the line, never panics, and decodes the
    row's bytes: the hex column and the gap are written with [write!],
    whatever the ASCII column became.  On an arbitrary body line the bound
    does not hold: the line [AB] makes the scan slice past its end, a
    panic. *)
Theorem scan_in_bounds_on_encoder_rows :
  (forall line log log',
     (length line <= 25)%nat ->
     write_data_line (list ascii) fmt wr line log = (log', Ok_ tt) ->
     exists row, log' = log ++ row ++ [NL] /\ clean_line row = true /\
                 scan_hex row = Ok_ line) /\
  scan_hex (s2l "AB") = Panic.
Proof.
  split; [|reflexivity].
  intros line log log' Hl E.
  destruct (appends_write_data_line line _ _ _ E) as [t [-> [r [-> Hr]]]].
  exists (hex_col line ++ s2l "    " ++ r). split; [|split].
  - rewrite <- !app_assoc. reflexivity.
  - rewrite !clean_line_app, clean_hex_col, Hr. reflexivity.
  - apply scan_hex_hex_col_gap. exact Hl.
Qed.

End EncoderRows.

Lemma scan_in_bounds_on_encoder_rows_witness :
  (forall s t, buf_write_fmt s t = (s ++ t, None) \/
               exists s' e, buf_write_fmt s t = (s', Some e)) /\
  (forall s t, exists k r, short_write s t = (s ++ firstn k t, r)) /\
  exists row,
    fst (write_data_line (list ascii) buf_write_fmt short_write
           [Byte.x41; Byte.x00] []) = [] ++ row ++ [NL] /\
    clean_line row = true /\ scan_hex row = Ok_ [Byte.x41; Byte.x00].
Proof.
  assert (Hf : forall s t, buf_write_fmt s t = (s ++ t, None) \/
               exists s' e, buf_write_fmt s t = (s', Some e))
    by (intros s t; left; reflexivity).
  assert (Hw : forall s t, exists k r, short_write s t = (s ++ firstn k t, r)).
  { intros s [|c t]; [exists 0%nat, (inl 0); rewrite app_nil_r; reflexivity|].
    exists 1%nat, (inl 1). reflexivity. }
  split; [exact Hf|]. split; [exact Hw|].
  destruct (proj1 (scan_in_bounds_on_encoder_rows buf_write_fmt Hf short_write Hw)
              [Byte.x41; Byte.x00] []
              (fst (write_data_line (list ascii) buf_write_fmt short_write
                      [Byte.x41; Byte.x00] []))
              ltac:(simpl; lia) eq_refl) as [row H].
  exists row. exact H.
Defined.

(** * Further properties of the code *)

(** ** [millis] *)

Lemma millis_formula d :
  duration_valid d ->
  millis d =
  Z.min ((as_secs d * 1000000000 + subsec_nanos d + 999999) / 1000000) U64_MAX.
Proof.
  destruct d as [s n]; unfold duration_valid; simpl; intros Hd.
  unfold millis, saturating_add, saturating_mul, NANOS_PER_MILLI,
    MILLIS_PER_SEC; simpl.
  rewrite (Z.mod_small (n + 1000000 - 1)) by lia.
  replace (s * 1000000000 + n + 999999)%Z
    with ((n + 999999) + (s * 1000) * 1000000)%Z by lia.
  rewrite Z.div_add by lia.
  replace (n + 1000000 - 1)%Z with (n + 999999)%Z by lia.
  assert (0 <= (n + 999999) / 1000000)%Z by (apply Z.div_pos; lia).
  unfold U64_MAX. lia.
Qed.

(** [millis] is monotone: a later instant never gets a smaller
    millisecond count, so elapsed times in a dump never decrease. *)
Theorem millis_monotone (d1 d2 : Duration)
    (H1 : duration_valid d1) (H2 : duration_valid d2)
    (Hle : (as_secs d1 * 1000000000 + subsec_nanos d1 <=
            as_secs d2 * 1000000000 + subsec_nanos d2)%Z) :
  (millis d1 <= millis d2)%Z.
Proof.
  rewrite (millis_formula d1 H1), (millis_formula d2 H2).
  apply Z.min_le_compat_r. apply Z.div_le_mono; lia.
Qed.

Lemma millis_monotone_witness :
  duration_valid (mkDuration 1 999999999) /\ duration_valid (mkDuration 2 0) /\
  (1 * 1000000000 + 999999999 <= 2 * 1000000000 + 0)%Z /\
  (millis (mkDuration 1 999999999) <= millis (mkDuration 2 0))%Z.
Proof.
  assert (H1 : duration_valid (mkDuration 1 999999999))
    by (unfold duration_valid; simpl; lia).
  assert (H2 : duration_valid (mkDuration 2 0))
    by (unfold duration_valid; simpl; lia).
  assert (H3 : (1 * 1000000000 + 999999999 <= 2 * 1000000000 + 0)%Z) by lia.
  refine (conj H1 (conj H2 (conj H3 _))).
  exact (millis_monotone _ _ H1 H2 H3).
Defined.

(** ** Decimal rendering *)

Lemma digits_value_snoc l c :
  digits_value (l ++ [c]) =
  (digits_value l * 10 + (Z.of_nat (nat_of_ascii c) - 48))%Z.
Proof. unfold digits_value. rewrite fold_left_app. reflexivity. Qed.

Lemma dec_digit_value k :
  (k < 10)%N -> (Z.of_nat (nat_of_ascii (dec_digit k)) - 48)%Z = Z.of_N k.
Proof.
  intros Hk. unfold dec_digit, nat_of_ascii.
  rewrite N_ascii_embedding by lia. lia.
Qed.

Lemma digits_rev_value fuel n :
  (Z.of_N n < 10 ^ Z.of_nat fuel)%Z ->
  digits_value (rev (digits_rev fuel n)) = Z.of_N n.
Proof.
  revert n. induction fuel as [|f IH]; intros n Hn.
  - change (10 ^ Z.of_nat 0)%Z with 1%Z in Hn.
    change (digits_value (rev (digits_rev 0 n))) with 0%Z. lia.
  - cbn [digits_rev rev]. rewrite digits_value_snoc.
    rewrite dec_digit_value by (apply N.mod_lt; discriminate).
    destruct (n <? 10)%N eqn:E.
    + apply N.ltb_lt in E. simpl. rewrite N.mod_small by exact E. lia.
    + apply N.ltb_ge in E. rewrite IH.
      * pose proof (N.div_mod n 10 ltac:(discriminate)). lia.
      * rewrite Nat2Z.inj_succ, Z.pow_succ_r in Hn by lia.
        rewrite N2Z.inj_div. apply Z.div_lt_upper_bound; lia.
Qed.

Lemma pos_lt_pow2_size p : (Z.pos p < 2 ^ Z.of_nat (Pos.size_nat p))%Z.
Proof.
  induction p as [p IH|p IH|]; cbn [Pos.size_nat]; try (simpl; lia);
    rewrite Nat2Z.inj_succ, Z.pow_succ_r by lia; lia.
Qed.

Lemma show_N_value n : digits_value (show_N n) = Z.of_N n.
Proof.
  unfold show_N. apply digits_rev_value.
  destruct n as [|p]; [simpl; lia|].
  cbn [N.size_nat]. rewrite Nat2Z.inj_succ, Z.pow_succ_r by lia.
  pose proof (pos_lt_pow2_size p).
  assert (2 ^ Z.of_nat (Pos.size_nat p) <= 10 ^ Z.of_nat (Pos.size_nat p))%Z
    by (apply Z.pow_le_mono_l; lia).
  change (Z.of_N (N.pos p)) with (Z.pos p). lia.
Qed.

(** The byte-count token of every header the encoder writes reads back,
    as a decimal number, as the payload length. *)
Theorem header_count_token (dir : Direction) (ms : Z) (n : nat) :
  digits_value (nth 2 (tokens (header_line dir ms n)) []) = Z.of_nat n.
Proof.
  rewrite tokens_header. cbn [nth]. rewrite show_N_value. lia.
Qed.



(** ** The decorator *)



(** With an in-memory log, a capturing [read] that gets [n] bytes from the
    wrapped stream appends exactly one record to the log: the [Read] record
    of the first [n] bytes now in the buffer, stamped with the time since
    the decorator was created; it returns [n].  (The elapsed time is taken
    below [2^43] ms, where its [f64] rendering is exact.) *)
Theorem capture_read_appends_record (Up : Type)
    (up_read : Up -> list Byte.byte -> Up * list Byte.byte * (nat + IoError))
    (i : Inner (list ascii)) (clock d : Duration)
    (up up' : Up) (dst dst' : list Byte.byte) (n : nat)
    (Hr : up_read up dst = (up', dst', inl n)) (Hn : (n <= length dst)%nat)
    (Hd : instant_sub clock (now i) = Some d)
    (Hms : (millis d < 2 ^ 43)%Z) :
  dump_read (list ascii) Up buf_write_fmt buf_write up_read
    (mkDump up (Some i)) clock dst =
  (mkDump up' (Some (mkInner (dump i ++
                               unlines (record_lines Read (millis d)
                                          (firstn n dst')))
                             (now i))),
   dst', Ok_ n).
Proof.
  unfold dump_read. cbn [upstream inner]. rewrite Hr.
  assert (Hlt : (length dst <? n)%nat = false) by (apply Nat.ltb_ge; exact Hn).
  rewrite Hlt. unfold inner_write_packet.
  rewrite (write_packet_emits (now i) clock d Read (firstn n dst') Hd (dump i)).
  reflexivity.
Qed.

Lemma capture_read_appends_record_witness :
  instant_sub (mkDuration 0 2000000) (mkDuration 0 0) =
    Some (mkDuration 0 2000000) /\
  (millis (mkDuration 0 2000000) < 2 ^ 43)%Z /\
  dump_read (list ascii) unit buf_write_fmt buf_write
    (fun u b => (u, [Byte.x68; Byte.x69; Byte.x21], inl 2))
    (mkDump tt (Some (mkInner [] (mkDuration 0 0)))) (mkDuration 0 2000000)
    [Byte.x00; Byte.x00; Byte.x00] =
  (mkDump tt (Some (mkInner ([] ++
                               unlines (record_lines Read
                                          (millis (mkDuration 0 2000000))
                                          (firstn 2 [Byte.x68; Byte.x69; Byte.x21])))
                             (mkDuration 0 0))),
   [Byte.x68; Byte.x69; Byte.x21], Ok_ 2).
Proof.
  split; [reflexivity|]. split; [vm_compute; reflexivity|].
  exact (capture_read_appends_record unit
    (fun u b => (u, [Byte.x68; Byte.x69; Byte.x21], inl 2))
    (mkInner [] (mkDuration 0 0)) (mkDuration 0 2000000) (mkDuration 0 2000000)
    tt tt [Byte.x00; Byte.x00; Byte.x00] [Byte.x68; Byte.x69; Byte.x21] 2
    eq_refl ltac:(simpl; lia) eq_refl ltac:(vm_compute; reflexivity)).
Defined.

(** With an in-memory log, a capturing [write] that the wrapped stream
    accepts [n] bytes of appends exactly the [Write] record of the first
    [n] bytes of the source to the log and returns [n] (elapsed time below
    [2^43] ms, as for [read]). *)
Theorem capture_write_appends_record (Up : Type)
    (up_write : Up -> list Byte.byte -> Up * (nat + IoError))
    (i : Inner (list ascii)) (clock d : Duration)
    (up up' : Up) (src : list Byte.byte) (n : nat)
    (Hw : up_write up src = (up', inl n)) (Hn : (n <= length src)%nat)
    (Hd : instant_sub clock (now i) = Some d)
    (Hms : (millis d < 2 ^ 43)%Z) :
  dump_write (list ascii) Up buf_write_fmt buf_write up_write
    (mkDump up (Some i)) clock src =
  (mkDump up' (Some (mkInner (dump i ++
                               unlines (record_lines Write (millis d)
                                          (firstn n src)))
                             (now i))),
   Ok_ n).
Proof.
  unfold dump_write. cbn [upstream inner]. rewrite Hw.
  assert (Hlt : (length src <? n)%nat = false) by (apply Nat.ltb_ge; exact Hn).
  rewrite Hlt. unfold inner_write_packet.
  rewrite (write_packet_emits (now i) clock d Write (firstn n src) Hd (dump i)).
  reflexivity.
Qed.

Lemma capture_write_appends_record_witness :
  instant_sub (mkDuration 1 0) (mkDuration 0 500000000) =
    Some (mkDuration 0 500000000) /\
  (millis (mkDuration 0 500000000) < 2 ^ 43)%Z /\
  dump_write (list ascii) unit buf_write_fmt buf_write
    (fun u s => (u, inl 1))
    (mkDump tt (Some (mkInner [] (mkDuration 0 500000000)))) (mkDuration 1 0)
    [Byte.x0a; Byte.x41] =
  (mkDump tt (Some (mkInner ([] ++
                               unlines (record_lines Write
                                          (millis (mkDuration 0 500000000))
                                          (firstn 1 [Byte.x0a; Byte.x41])))
                             (mkDuration 0 500000000))),
   Ok_ 1).
Proof.
  split; [reflexivity|]. split; [vm_compute; reflexivity|].
  exact (capture_write_appends_record unit (fun u s => (u, inl 1))
    (mkInner [] (mkDuration 0 500000000)) (mkDuration 1 0)
    (mkDuration 0 500000000) tt tt [Byte.x0a; Byte.x41] 1
    eq_refl ltac:(simpl; lia) eq_refl ltac:(vm_compute; reflexivity)).
Defined.

(** ** Row layout *)





(** ** Short writes of the log sink *)

(** [write_data_line] writes a printable byte with [self.dump.write] and
    ignores the count it returns: on a sink that takes only the first byte
    of each [write] call, the row still ends successfully, but every
    printable byte leaves only its leading blank in the ASCII column (the
    character itself is lost). *)
Theorem short_write_drops_printable (line : list Byte.byte) :
  emits (write_data_line (list ascii) buf_write_fmt short_write line)
    (hex_col line ++ s2l "    " ++
     concat (map (fun b =>
       if ((32 <=? Byte.to_N b)%N && (Byte.to_N b <=? 126)%N)%bool
       then [" "] else ascii_entry b) line) ++ [NL]).
Proof.
  unfold write_data_line, hex_col.
  apply emits_seq.
  - apply emits_for. intros i _. unfold hex_cell.
    destruct (length line <=? i)%nat; apply emits_write_fmt.
  - apply emits_seq; [apply emits_write_fmt|].
    apply emits_seq; [|apply emits_write_fmt].
    apply emits_for. intros byte _ log. destruct byte; reflexivity.
Qed.

(** ** The reader *)

Lemma read_packet_header h dir el :
  read_packet [h] = (Ok_ (Some (mkPacket dir el [])), []) ->
  forall ls, read_packet (h :: ls) = read_body dir el [] ls.
Proof.
  intros H ls. cbn [read_packet] in H |- *.
  destruct (match tokens h with [] => true | _ => false end
            || str_eqb (nth 0 (tokens h) []) (s2l "//")); [discriminate|].
  destruct (negb (length (tokens h) =? 4)%nat); [discriminate|].
  destruct (dir_of (nth 0 (tokens h) [])) as [d|]; [|discriminate].
  destruct (parse_f64 _) as [e|]; [|discriminate].
  cbn [read_body] in H. injection H as -> ->. reflexivity.
Qed.

Lemma scan_hex_hand_row cells junk :
  scan_hex (hand_row cells junk) = Ok_ (map fst cells).
Proof.
  unfold hand_row. induction cells as [|[b c] cells IH]; [reflexivity|].
  destruct (hex2_roundtrip b) as [Hb Hsp].
  cbn [map concat fst snd]. rewrite <- !app_assoc. unfold hex2 at 1.
  cbn [app scan_hex]. rewrite Hsp, Hb. cbn [andb]. rewrite IH. reflexivity.
Qed.

Lemma hand_row_nonempty cells junk : hand_row cells junk <> [].
Proof. unfold hand_row. destruct (concat _); discriminate. Qed.

Lemma read_body_hand_rows dir el acc rows rest :
  read_body dir el acc
    (map (fun r => hand_row (fst r) (snd r)) rows ++ [] :: rest) =
  (Ok_ (Some (mkPacket dir el (acc ++ concat (map (fun r => map fst (fst r))
                                                   rows)))), rest).
Proof.
  revert acc. induction rows as [|[cells junk] rows IH]; intros acc.
  - simpl. rewrite app_nil_r. reflexivity.
  - cbn [map app fst snd concat]. cbn [read_body].
    destruct (hand_row cells junk) as [|c t] eqn:Ht;
      [exfalso; exact (hand_row_nonempty _ _ Ht)|].
    rewrite <- Ht, scan_hex_hand_row, IH, app_assoc. reflexivity.
Qed.

(** The reader decodes a record body from the hex column alone: rows of any
    lengths, each byte as two hex digits followed by any one character (the
    separator is never looked at), the column ended by two blanks; what
    follows the two blanks (the ASCII column) is ignored.  The packet's data
    is the concatenation of the rows' bytes. *)
Theorem hand_written_rows (h : list ascii) (dir : Direction) (el : Duration)
    (rows : list (list (Byte.byte * ascii) * list ascii))
    (rest : list (list ascii))
    (Hh : read_packet [h] = (Ok_ (Some (mkPacket dir el [])), []))
    (Hh7 : forallb ascii7 h = true)
    (Ha : forallb (fun r => forallb ascii7 (hand_row (fst r) (snd r))) rows
          = true) :
  read_packet (h :: map (fun r => hand_row (fst r) (snd r)) rows ++ [] :: rest)
  = (Ok_ (Some (mkPacket dir el (concat (map (fun r => map fst (fst r)) rows)))),
     rest).
Proof.
  rewrite (read_packet_header h dir el Hh). apply read_body_hand_rows.
Qed.

Lemma hand_written_rows_witness :
  read_packet [s2l "->  0.001s  3 bytes"] =
    (Ok_ (Some (mkPacket Read (from_millis 1) [])), []) /\
  forallb ascii7 (s2l "->  0.001s  3 bytes") = true /\
  forallb (fun r => forallb ascii7 (hand_row (fst r) (snd r)))
    [([(Byte.x61, ","); (Byte.x62, "-")], s2l "whatever");
     ([(Byte.x0a, " ")], [])] = true /\
  read_packet (s2l "->  0.001s  3 bytes" ::
               map (fun r => hand_row (fst r) (snd r))
                 [([(Byte.x61, ","); (Byte.x62, "-")], s2l "whatever");
                  ([(Byte.x0a, " ")], [])] ++ [] :: [])
  = (Ok_ (Some (mkPacket Read (from_millis 1)
                  (concat (map (fun r => map fst (fst r))
                     [([(Byte.x61, ","); (Byte.x62, "-")], s2l "whatever");
                      ([(Byte.x0a, " ")], [])])))), []).
Proof.
  assert (Hh : read_packet [s2l "->  0.001s  3 bytes"] =
               (Ok_ (Some (mkPacket Read (from_millis 1) [])), []))
    by (vm_compute; reflexivity).
  assert (Ha : forallb (fun r => forallb ascii7 (hand_row (fst r) (snd r)))
            [([(Byte.x61, ","); (Byte.x62, "-")], s2l "whatever");
             ([(Byte.x0a, " ")], [])] = true) by reflexivity.
  split; [exact Hh|]. split; [reflexivity|]. split; [exact Ha|].
  exact (hand_written_rows _ Read (from_millis 1) _ [] Hh eq_refl Ha).
Defined.

Lemma read_body_scanned dir el acc (pairs : list (list ascii * list Byte.byte))
    rest :
  Forall (fun p => fst p <> [] /\ scan_hex (fst p) = Ok_ (snd p)) pairs ->
  read_body dir el acc (map fst pairs ++ [] :: rest) =
  (Ok_ (Some (mkPacket dir el (acc ++ concat (map snd pairs)))), rest).
Proof.
  revert acc. induction pairs as [|[l bs] pairs IH]; intros acc Hp.
  - simpl. rewrite app_nil_r. reflexivity.
  - inversion Hp as [|? ? [Hne Hs] Hps]; subst. cbn [map app fst snd concat].
    cbn [fst snd] in Hne, Hs. cbn [read_body].
    destruct l as [|c t]; [congruence|]. rewrite Hs, IH by exact Hps.
    rewrite app_assoc. reflexivity.
Qed.

Lemma lower_hex2 b :
  from_str_radix16 (lower (hex_digit (Byte.to_N b / 16)))
                   (lower (hex_digit (Byte.to_N b mod 16))) = Some b /\
  ascii_eqb (lower (hex_digit (Byte.to_N b / 16))) " " = false.
Proof. destruct b; split; reflexivity. Qed.

Lemma scan_hex_lower_hand_row cells junk :
  scan_hex (map lower (hand_row cells junk)) = Ok_ (map fst cells).
Proof.
  unfold hand_row. rewrite map_app. cbn [map].
  induction cells as [|[b c] cells IH]; [reflexivity|].
  destruct (lower_hex2 b) as [Hb Hsp].
  cbn [map concat fst snd]. rewrite map_app, <- !app_assoc. unfold hex2 at 1.
  cbn [app map scan_hex]. rewrite Hsp, Hb. cbn [andb]. rewrite IH. reflexivity.
Qed.

(** Hex digits are read in either case: writing the rows of a record in
    lower case (as a person editing a dump might) yields the same packet as
    the upper-case rows the encoder writes. *)
Theorem lowercase_rows_same_packet (h : list ascii) (dir : Direction)
    (el : Duration) (rows : list (list (Byte.byte * ascii) * list ascii))
    (rest : list (list ascii))
    (Hh : read_packet [h] = (Ok_ (Some (mkPacket dir el [])), []))
    (Hh7 : forallb ascii7 h = true)
    (Ha : forallb (fun r => forallb ascii7 (hand_row (fst r) (snd r))) rows
          = true) :
  read_packet (h :: map (fun r => map lower (hand_row (fst r) (snd r))) rows
                 ++ [] :: rest) =
  read_packet (h :: map (fun r => hand_row (fst r) (snd r)) rows ++ [] :: rest).
Proof.
  rewrite !(read_packet_header h dir el Hh).
  rewrite read_body_hand_rows.
  pose (pairs := map (fun r => (map lower (hand_row (fst r) (snd r)),
                                map fst (fst r))) rows).
  assert (Hm : map (fun r => map lower (hand_row (fst r) (snd r))) rows =
               map fst pairs)
    by (unfold pairs; rewrite map_map; reflexivity).
  assert (Hc : concat (map (fun r => map fst (fst r)) rows) =
               concat (map snd pairs))
    by (unfold pairs; rewrite map_map; reflexivity).
  rewrite Hm, Hc. apply read_body_scanned.
  unfold pairs. apply Forall_map, Forall_forall. intros [cells junk] _.
  cbn [fst snd]. split.
  - unfold hand_row. rewrite map_app. destruct (map lower _); discriminate.
  - apply scan_hex_lower_hand_row.
Qed.

Lemma lowercase_rows_same_packet_witness :
  read_packet [s2l "<-  1.500s  2 bytes"] =
    (Ok_ (Some (mkPacket Write (from_millis 1500) [])), []) /\
  forallb ascii7 (s2l "<-  1.500s  2 bytes") = true /\
  forallb (fun r => forallb ascii7 (hand_row (fst r) (snd r)))
    [([(Byte.xab, " "); (Byte.xcd, " ")], s2l "\?\?")] = true /\
  read_packet (s2l "<-  1.500s  2 bytes" ::
               map (fun r => map lower (hand_row (fst r) (snd r)))
                 [([(Byte.xab, " "); (Byte.xcd, " ")], s2l "\?\?")] ++ [] :: [])
  = read_packet (s2l "<-  1.500s  2 bytes" ::
               map (fun r => hand_row (fst r) (snd r))
                 [([(Byte.xab, " "); (Byte.xcd, " ")], s2l "\?\?")] ++ [] :: []).
Proof.
  assert (Hh : read_packet [s2l "<-  1.500s  2 bytes"] =
               (Ok_ (Some (mkPacket Write (from_millis 1500) [])), []))
    by (vm_compute; reflexivity).
  assert (Ha : forallb (fun r => forallb ascii7 (hand_row (fst r) (snd r)))
    [([(Byte.xab, " "); (Byte.xcd, " ")], s2l "\?\?")] = true) by reflexivity.
  split; [exact Hh|]. split; [reflexivity|]. split; [exact Ha|].
  exact (lowercase_rows_same_packet _ Write (from_millis 1500) _ [] Hh eq_refl Ha).
Defined.

(** A row with a cell that is not two hex digits (and not the two blanks
    that end the hex column) makes [read_packet] fail with [InvalidInput]
    "could not parse byte", discarding the bytes already read for the
    record; [next] unwraps that error into a panic. *)
Theorem invalid_hex_cell_error (h : list ascii) (dir : Direction)
    (el : Duration) (rows : list (list (Byte.byte * ascii) * list ascii))
    (cells : list (Byte.byte * ascii)) (a b : ascii) (r : list ascii)
    (rest : list (list ascii))
    (Hh : read_packet [h] = (Ok_ (Some (mkPacket dir el [])), []))
    (Hh7 : forallb ascii7 h = true)
    (Ha : forallb (fun r => forallb ascii7 (hand_row (fst r) (snd r))) rows
          = true)
    (Hbad7 : forallb ascii7
               (concat (map (fun c => hex2 (fst c) ++ [snd c]) cells)
                ++ a :: b :: r) = true)
    (Hgap : ~ (a = " " /\ b = " "))
    (Hbad : from_str_radix16 a b = None) :
  let bad := concat (map (fun c => hex2 (fst c) ++ [snd c]) cells) ++ a :: b :: r in
  read_packet (h :: map (fun r => hand_row (fst r) (snd r)) rows ++ bad :: rest)
    = (Err_ (InvalidInput "could not parse byte"), rest) /\
  next (h :: map (fun r => hand_row (fst r) (snd r)) rows ++ bad :: rest)
    = (Panic, rest).
Proof.
  intros bad.
  assert (Hscan : scan_hex bad = Err_ (InvalidInput "could not parse byte")).
  { unfold bad. clear Hbad7. induction cells as [|[x c] cells IH].
    - cbn [map concat app scan_hex]. rewrite Hbad.
      destruct (ascii_eqb a " ") eqn:Ea; destruct (ascii_eqb b " ") eqn:Eb;
        try reflexivity.
      unfold ascii_eqb in Ea, Eb.
      destruct (ascii_dec a " "), (ascii_dec b " "); try discriminate.
      exfalso; tauto.
    - destruct (hex2_roundtrip x) as [Hx Hsp].
      cbn [map concat fst snd]. rewrite <- !app_assoc. unfold hex2 at 1.
      cbn [app scan_hex]. rewrite Hsp, Hx. cbn [andb]. rewrite IH. reflexivity. }
  assert (Hne : bad <> []) by (unfold bad; destruct (concat _); discriminate).
  assert (Hb : forall acc,
    read_body dir el acc (map (fun r => hand_row (fst r) (snd r)) rows ++ bad :: rest)
    = (Err_ (InvalidInput "could not parse byte"), rest)).
  { clear Ha. induction rows as [|[cs junk] rows IH]; intros acc.
    - cbn [map app read_body]. destruct bad as [|c t]; [congruence|].
      rewrite Hscan. reflexivity.
    - cbn [map app fst snd read_body].
      destruct (hand_row cs junk) as [|c t] eqn:Ht;
        [exfalso; exact (hand_row_nonempty _ _ Ht)|].
      rewrite <- Ht, scan_hex_hand_row. apply IH. }
  rewrite (read_packet_header h dir el Hh). split; [apply Hb|].
  unfold next. rewrite (read_packet_header h dir el Hh), Hb. reflexivity.
Qed.

Lemma invalid_hex_cell_error_witness :
  read_packet [s2l "->  0.010s  2 bytes"] =
    (Ok_ (Some (mkPacket Read (from_millis 10) [])), []) /\
  forallb ascii7 (s2l "->  0.010s  2 bytes") = true /\
  forallb (fun r => forallb ascii7 (hand_row (fst r) (snd r)))
    [([(Byte.x41, " ")], s2l " A")] = true /\
  forallb ascii7 (concat (map (fun c => hex2 (fst c) ++ [snd c])
                   [(Byte.x01, " ")]) ++ " " :: "G" :: s2l " ") = true /\
  ~ ((" " : ascii) = " " /\ ("G" : ascii) = " ") /\
  from_str_radix16 " " "G" = None /\
  (let bad := concat (map (fun c => hex2 (fst c) ++ [snd c])
                       [(Byte.x01, " ")]) ++ " " :: "G" :: s2l " " in
   read_packet (s2l "->  0.010s  2 bytes" ::
                map (fun r => hand_row (fst r) (snd r))
                  [([(Byte.x41, " ")], s2l " A")] ++ bad :: [])
     = (Err_ (InvalidInput "could not parse byte"), []) /\
   next (s2l "->  0.010s  2 bytes" ::
         map (fun r => hand_row (fst r) (snd r))
           [([(Byte.x41, " ")], s2l " A")] ++ bad :: [])
     = (Panic, [])).
Proof.
  assert (Hh : read_packet [s2l "->  0.010s  2 bytes"] =
               (Ok_ (Some (mkPacket Read (from_millis 10) [])), []))
    by (vm_compute; reflexivity).
  assert (Hg : ~ ((" " : ascii) = " " /\ ("G" : ascii) = " "))
    by (intros [_ E]; discriminate E).
  assert (Hbad : from_str_radix16 " " "G" = None) by reflexivity.
  refine (conj Hh (conj eq_refl (conj eq_refl (conj eq_refl
            (conj Hg (conj Hbad _)))))).
  exact (invalid_hex_cell_error (s2l "->  0.010s  2 bytes") Read
           (from_millis 10) [([(Byte.x41, " ")], s2l " A")] [(Byte.x01, " ")]
           " " "G" (s2l " ") []
           Hh eq_refl eq_refl eq_refl Hg Hbad).
Defined.

(** A non-blank row whose hex cells run to the end of the line without the
    two blanks that end the hex column (the line stops after a cell, after
    a cell's two digits, or one character into a cell) makes [read_packet]
    panic: the slice [line[pos..pos+2]] goes past the end of the line. *)
Theorem row_without_gap_panics (h : list ascii) (dir : Direction)
    (el : Duration) (rows : list (list (Byte.byte * ascii) * list ascii))
    (cells : list (Byte.byte * ascii)) (t : list ascii)
    (rest : list (list ascii))
    (Hh : read_packet [h] = (Ok_ (Some (mkPacket dir el [])), []))
    (Hh7 : forallb ascii7 h = true)
    (Ha : forallb (fun r => forallb ascii7 (hand_row (fst r) (snd r))) rows
          = true)
    (Hl7 : forallb ascii7
             (concat (map (fun c => hex2 (fst c) ++ [snd c]) cells) ++ t) = true)
    (Ht : (length t <= 1)%nat \/ exists x, t = hex2 x)
    (Hne : concat (map (fun c => hex2 (fst c) ++ [snd c]) cells) ++ t <> []) :
  read_packet (h :: map (fun r => hand_row (fst r) (snd r)) rows
                 ++ (concat (map (fun c => hex2 (fst c) ++ [snd c]) cells) ++ t)
                 :: rest)
    = (Panic, rest).
Proof.
  set (line := concat (map (fun c => hex2 (fst c) ++ [snd c]) cells) ++ t) in *.
  assert (Hscan : scan_hex line = Panic).
  { unfold line. clear Hne Hl7. induction cells as [|[x c] cells IH].
    - cbn [map concat app]. destruct Ht as [Hl | [y ->]].
      + destruct t as [|c1 [|c2 t]]; [reflexivity|reflexivity|simpl in Hl; lia].
      + destruct (hex2_roundtrip y) as [Hy Hsp]. unfold hex2.
        cbn [scan_hex]. rewrite Hsp, Hy. reflexivity.
    - destruct (hex2_roundtrip x) as [Hx Hsp].
      cbn [map concat fst snd]. rewrite <- !app_assoc. unfold hex2 at 1.
      cbn [app scan_hex]. rewrite Hsp, Hx. cbn [andb]. rewrite IH. reflexivity. }
  rewrite (read_packet_header h dir el Hh). generalize (@nil Byte.byte).
  clear Ha. induction rows as [|[cs junk] rows IH]; intros acc.
  - cbn [map app read_body]. destruct line as [|c u]; [congruence|].
    rewrite Hscan. reflexivity.
  - cbn [map app fst snd read_body].
    destruct (hand_row cs junk) as [|c u] eqn:Hr;
      [exfalso; exact (hand_row_nonempty _ _ Hr)|].
    rewrite <- Hr, scan_hex_hand_row. apply IH.
Qed.

Lemma row_without_gap_panics_witness :
  read_packet [s2l "->  0.010s  2 bytes"] =
    (Ok_ (Some (mkPacket Read (from_millis 10) [])), []) /\
  forallb ascii7 (s2l "->  0.010s  2 bytes") = true /\
  forallb (fun r => forallb ascii7 (hand_row (fst r) (snd r))) [] = true /\
  forallb ascii7 (concat (map (fun c => hex2 (fst c) ++ [snd c])
                   [(Byte.x41, " ")]) ++ hex2 Byte.x42) = true /\
  ((length (hex2 Byte.x42) <= 1)%nat \/ exists x, hex2 Byte.x42 = hex2 x) /\
  concat (map (fun c => hex2 (fst c) ++ [snd c]) [(Byte.x41, " ")])
    ++ hex2 Byte.x42 <> [] /\
  read_packet (s2l "->  0.010s  2 bytes" ::
               map (fun r => hand_row (fst r) (snd r)) []
               ++ (concat (map (fun c => hex2 (fst c) ++ [snd c])
                             [(Byte.x41, " ")]) ++ hex2 Byte.x42) :: [])
    = (Panic, []).
Proof.
  assert (Hh : read_packet [s2l "->  0.010s  2 bytes"] =
               (Ok_ (Some (mkPacket Read (from_millis 10) [])), []))
    by (vm_compute; reflexivity).
  assert (Ht : (length (hex2 Byte.x42) <= 1)%nat \/
               exists x, hex2 Byte.x42 = hex2 x)
    by (right; exists Byte.x42; reflexivity).
  assert (Hne : concat (map (fun c => hex2 (fst c) ++ [snd c]) [(Byte.x41, " ")])
                  ++ hex2 Byte.x42 <> []) by discriminate.
  refine (conj Hh (conj eq_refl (conj eq_refl (conj eq_refl
            (conj Ht (conj Hne _)))))).
  exact (row_without_gap_panics (s2l "->  0.010s  2 bytes") Read
           (from_millis 10) [] [(Byte.x41, " ")] (hex2 Byte.x42) []
           Hh eq_refl eq_refl eq_refl Ht Hne).
Defined.

Lemma firstn_drop_last (b : list ascii) u :
  firstn (length (b ++ [u]) - 1) (b ++ [u]) = b.
Proof.
  rewrite length_app. cbn [length].
  replace (length b + 1 - 1)%nat with (length b) by lia.
  rewrite firstn_app, firstn_all, Nat.sub_diag. apply app_nil_r.
Qed.

(** [read_packet] reads only the direction and the elapsed time from a
    header: the byte count and the word [bytes] are never checked (any
    third and fourth fields will do), and the last character of the elapsed
    field is dropped unchecked (it need not be [s]).  How the four fields
    are separated by blanks does not matter either. *)
Theorem header_count_and_unit_ignored (l1 l2 : list ascii)
    (a b c1 c2 d1 d2 : list ascii) (u1 u2 : ascii)
    (rest : list (list ascii))
    (Hl1 : forallb ascii7 l1 = true) (Hl2 : forallb ascii7 l2 = true)
    (H1 : tokens l1 = [a; b ++ [u1]; c1; d1])
    (H2 : tokens l2 = [a; b ++ [u2]; c2; d2]) :
  read_packet (l1 :: rest) = read_packet (l2 :: rest).
Proof.
  cbn [read_packet]. rewrite H1, H2. cbn [nth length Nat.eqb negb].
  rewrite !firstn_drop_last. reflexivity.
Qed.

Lemma header_count_and_unit_ignored_witness :
  forallb ascii7 (s2l "->  0.250s  3 bytes") = true /\
  forallb ascii7 (s2l "-> 0.250x    999 octets") = true /\
  tokens (s2l "->  0.250s  3 bytes") =
    [s2l "->"; s2l "0.250" ++ ["s"]; s2l "3"; s2l "bytes"] /\
  tokens (s2l "-> 0.250x    999 octets") =
    [s2l "->"; s2l "0.250" ++ ["x"]; s2l "999"; s2l "octets"] /\
  read_packet [s2l "->  0.250s  3 bytes"; s2l "00 01 02   "; []] =
  read_packet [s2l "-> 0.250x    999 octets"; s2l "00 01 02   "; []].
Proof.
  assert (Hu1 : forallb ascii7 (s2l "->  0.250s  3 bytes") = true)
    by reflexivity.
  assert (Hu2 : forallb ascii7 (s2l "-> 0.250x    999 octets") = true)
    by reflexivity.
  assert (H1 : tokens (s2l "->  0.250s  3 bytes") =
    [s2l "->"; s2l "0.250" ++ ["s"]; s2l "3"; s2l "bytes"]) by reflexivity.
  assert (H2 : tokens (s2l "-> 0.250x    999 octets") =
    [s2l "->"; s2l "0.250" ++ ["x"]; s2l "999"; s2l "octets"]) by reflexivity.
  refine (conj Hu1 (conj Hu2 (conj H1 (conj H2 _)))).
  exact (header_count_and_unit_ignored _ _ _ _ _ _ _ _ "s" "x"
           [s2l "00 01 02   "; []] Hu1 Hu2 H1 H2).
Defined.

(** Blank lines and [//] comment lines before a record are passed over:
    [read_packet] on them followed by more lines behaves as on the more
    lines alone; when nothing else is left it returns [None] and [next]
    ends the iteration without a panic. *)
Theorem skipped_lines_transparent (ls more : list (list ascii))
    (H7 : forallb (forallb ascii7) ls = true)
    (Hs : forallb skipped_line ls = true) :
  read_packet (ls ++ more) = read_packet more /\
  read_packet ls = (Ok_ None, []) /\ next ls = (Ok_ None, []).
Proof.
  assert (Happ : forall more, read_packet (ls ++ more) = read_packet more).
  { intros m. clear H7. induction ls as [|l ls IH]; [reflexivity|].
    cbn [forallb] in Hs. apply andb_prop in Hs as [Hl Hs].
    cbn [app read_packet]. unfold skipped_line in Hl. rewrite Hl.
    apply IH, Hs. }
  assert (Hnil : read_packet ls = (Ok_ None, [])).
  { rewrite <- (app_nil_r ls), Happ. reflexivity. }
  split; [apply Happ|]. split; [exact Hnil|].
  unfold next. rewrite Hnil. reflexivity.
Qed.

Lemma skipped_lines_transparent_witness :
  forallb (forallb ascii7) [[]; s2l "   "; s2l "// session 1"; s2l "  //"] = true /\
  forallb skipped_line [[]; s2l "   "; s2l "// session 1"; s2l "  //"] = true /\
  read_packet ([[]; s2l "   "; s2l "// session 1"; s2l "  //"] ++
               [s2l "<-  0.000s  0 bytes"; []]) =
    read_packet [s2l "<-  0.000s  0 bytes"; []] /\
  read_packet [[]; s2l "   "; s2l "// session 1"; s2l "  //"] = (Ok_ None, []) /\
  next [[]; s2l "   "; s2l "// session 1"; s2l "  //"] = (Ok_ None, []).
Proof.
  assert (Hs : forallb skipped_line
                 [[]; s2l "   "; s2l "// session 1"; s2l "  //"] = true)
    by reflexivity.
  assert (H7 : forallb (forallb ascii7)
                 [[]; s2l "   "; s2l "// session 1"; s2l "  //"] = true)
    by reflexivity.
  split; [exact H7|]. split; [exact Hs|].
  exact (skipped_lines_transparent _ [s2l "<-  0.000s  0 bytes"; []] H7 Hs).
Defined.
